(** * The install form of the extension: [extension/src/sites/install.js]

    A shallow embedding of the manifest resolution ([obtainManifest]), of the
    native-messaging calls ([obtainSiteList], [obtainProfileList] and the two
    calls made from the click handlers) and of the handlers wired by
    [initializeForm], followed by the properties that the specification states
    about them.

    JavaScript objects that come from JSON (the fetched manifest, the replies
    of the native program) are finite maps from property names to values; a
    missing property reads as [None], which stands for [undefined]. The browser's
    [URL] class is not part of the repository and is a parameter ([UrlApi]);
    [MiniURL] is an executable instance of it for plain [http(s)] URLs. *)

From Stdlib Require Import String Ascii ZArith List Bool Lia.
From stdpp Require Import gmap strings list fin_maps pretty.

#[local] Set Warnings "-register-all".
#[local] Open Scope string_scope.

(** ** JavaScript values *)

(** A value obtained from JSON. Numbers are restricted to integers (their
    [ToString] is then the decimal numeral). *)
Inductive JsValue :=
| JNull
| JBool (b : bool)
| JNum (n : Z)
| JStr (s : string)
| JArr (items : list JsValue)
| JObj (fields : gmap string JsValue).

(** The result of reading a property: [None] is [undefined]. *)
Abbreviation JsProp := (option JsValue).
Abbreviation JsObject := (gmap string JsValue).

(** [String(v)] for a JSON value. [Array.prototype.join] turns [null] (and
    [undefined]) elements into the empty string. An object is taken to have
    no property named [toString] or [valueOf] of its own, so that it prints
    as [Object.prototype.toString] prints it. *)
Fixpoint ToString (v : JsValue) : string :=
  match v with
  | JNull => "null"
  | JBool b => if b then "true" else "false"
  | JNum n => pretty n
  | JStr s => s
  | JArr items =>
      String.concat ","
        (map (fun x => match x with JNull => "" | _ => ToString x end) items)
  | JObj _ => "[object Object]"
  end.

(** [String(p)] and the interpolation of [p] in a template literal. *)
Definition ToStringP (p : JsProp) : string :=
  match p with
  | None => "undefined"
  | Some v => ToString v
  end.

(** [ToBoolean]: what [if (p)] and [p || q] test. *)
Definition truthy (p : JsProp) : bool :=
  match p with
  | None | Some JNull => false
  | Some (JBool b) => b
  | Some (JNum n) => negb (n =? 0)%Z
  | Some (JStr s) => negb (String.eqb s "")
  | Some (JArr _) | Some (JObj _) => true
  end.

(** [v || null] for a string read from an input element. *)
Definition orNull (s : string) : option string :=
  if String.eqb s "" then None else Some s.

(** [p === s] for a string literal [s]. *)
Definition strictEqStr (p : JsProp) (s : string) : bool :=
  match p with
  | Some (JStr t) => String.eqb t s
  | _ => false
  end.

(** [Array.prototype.toString] on an array of strings. *)
Definition arrayToString (l : list string) : string := String.concat "," l.

(** ** Exceptions *)

(** [Error m] is [throw new Error(m)] of the source. A [TypeError] is raised
    by the engine (an invalid URL, a method call on [undefined]); its text is
    the engine's and nothing below depends on it. *)
Inductive JsError :=
| Error (message : string)
| TypeError (message : string).

Definition message_of (e : JsError) : string :=
  match e with
  | Error m | TypeError m => m
  end.

Inductive Result (A : Type) :=
| Ok (a : A)
| Throw (e : JsError).
Arguments Ok {A} a.
Arguments Throw {A} e.

Definition bind {A B} (r : Result A) (k : A -> Result B) : Result B :=
  match r with
  | Ok a => k a
  | Throw e => Throw e
  end.

Notation "x <- r ;; k" := (bind r (fun x => k))
  (at level 100, r at next level, right associativity).

(** [new Error(p)]: the message is [String(p)], and empty for [undefined]. *)
Definition newError (p : JsProp) : JsError :=
  Error (match p with
         | None => ""
         | Some v => ToString v
         end).

(** [p.toString()]: a method call, so it throws on [undefined] and [null]. *)
Definition callToString (p : JsProp) : Result string :=
  match p with
  | None | Some JNull => Throw (TypeError "toString of undefined or null")
  | Some v => Ok (ToString v)
  end.

(** ** The URL class of the browser *)

(** [newURL s None] is [new URL(s)], [newURL s (Some b)] is [new URL(s, b)];
    [None] as a result means that the constructor throws a [TypeError]. *)
Class UrlApi := {
  URL : Type;
  newURL : string -> option string -> option URL;
  href : URL -> string;
  origin : URL -> string;
  pathname : URL -> string;
  host : URL -> string
}.

(** A fact of the URL Standard: the serialization of a URL parses back to
    the same URL, without a base and against any valid base. *)
Class UrlLaws (api : UrlApi) := {
  href_reparse : forall s b u,
    newURL s b = Some u -> newURL (href u) None = Some u;
  href_absolute : forall s b u base,
    newURL s b = Some u -> is_Some (newURL base None) ->
    newURL (href u) (Some base) = Some u
}.

Section Embedding.
Context {api : UrlApi}.

Definition URL_new (s : string) (base : option string) : Result URL :=
  match newURL s base with
  | Some u => Ok u
  | None => Throw (TypeError "invalid URL")
  end.

(** [startUrl.origin !== scope.origin ||
     !startUrl.pathname.startsWith(scope.pathname)], the condition of lines 40
    and 219. *)
Definition outsideScope (startUrl scope : URL) : bool :=
  negb (String.eqb (origin startUrl) (origin scope))
  || negb (String.prefix (pathname scope) (pathname startUrl)).

(** The start URL has the origin of the scope and its path extends, as a
    string, the path of the scope: what [outsideScope] denies. *)
Definition within (startUrl scope : URL) : Prop :=
  origin startUrl = origin scope
  /\ exists rest, pathname startUrl = pathname scope +:+ rest.

(** *** [obtainManifest] (lines 11-44)

    The body of the function is cut at its comments into the resolution of
    the two URLs (lines 15-32) and the checks (lines 34-43). The assignments
    to [manifest.start_url] and [manifest.scope] are map updates. *)

(** Lines 15-32. *)
Definition resolveUrls (manifest : JsObject) (documentUrl : string) : Result JsObject :=
  manifest <-
    (if truthy (manifest !! "start_url") then
       u <- URL_new (ToStringP (manifest !! "start_url")) (Some documentUrl) ;;
       Ok (<["start_url" := JStr (href u)]> manifest)
     else
       Ok (<["start_url" := JStr documentUrl]> manifest)) ;;
  if truthy (manifest !! "scope") then
    u <- URL_new (ToStringP (manifest !! "scope")) (Some documentUrl) ;;
    Ok (<["scope" := JStr (href u)]> manifest)
  else
    u <- URL_new "." (Some (ToStringP (manifest !! "start_url"))) ;;
    Ok (<["scope" := JStr (href u)]> manifest).

(** Lines 34-43. *)
Definition checkUrls (manifest : JsObject) (documentUrl : string) : Result JsObject :=
  _startUrl <- URL_new (ToStringP (manifest !! "start_url")) None ;;
  _scopeUrl <- URL_new (ToStringP (manifest !! "scope")) None ;;
  _documentUrl <- URL_new documentUrl None ;;
  if negb (String.eqb (origin _startUrl) (origin _documentUrl)) then
    Throw (Error "Start and document URL are not in the same origin")
  else if outsideScope _startUrl _scopeUrl then
    Throw (Error "Start URL is not within the scope")
  else
    Ok manifest.

(** [fetchJson] stands for [fetch(manifestUrl)] followed by [.json()]: the
    network, as a function from the URL to the manifest object (or to the
    exception of a failed fetch). *)
Definition obtainManifest (fetchJson : string -> Result JsObject)
    (manifestUrl documentUrl : string) : Result JsObject :=
  manifest <- fetchJson manifestUrl ;;
  manifest <- resolveUrls manifest documentUrl ;;
  checkUrls manifest documentUrl.

End Embedding.

(** ** The native-messaging calls *)

(** A message for [browser.runtime.sendNativeMessage('firefoxpwa', ...)]:
    [{ cmd, params }]. *)
Record NativeRequest := {
  cmd : string;
  params : option JsObject
}.

(** What the returned promise settles to: rejected with an error, or resolved
    with the reply object of the native program. *)
Inductive NativeReply :=
| Rejected (e : JsError)
| Replied (response : JsObject).

(** The two checks that follow every call (lines 50-51, 61-62, 153-154 and
    278-279), with [expected] the tag written at the call site. The value is
    [response.data]. *)
Definition checkResponse (expected : string) (response : JsObject) : Result JsProp :=
  if strictEqStr (response !! "type") "Error" then
    Throw (newError (response !! "data"))
  else if negb (strictEqStr (response !! "type") expected) then
    Throw (Error ("Received invalid response type: " +:+ ToStringP (response !! "type")))
  else
    Ok (response !! "data").

(** [await sendNativeMessage(...)] followed by the checks. *)
Definition awaitReply (expected : string) (reply : NativeReply) : Result JsProp :=
  match reply with
  | Rejected e => Throw e
  | Replied response => checkResponse expected response
  end.

(** [obtainSiteList] (lines 46-55) and [obtainProfileList] (lines 57-66),
    against a native program [peer]. *)
Definition obtainSiteList (peer : NativeRequest -> NativeReply) : Result JsProp :=
  awaitReply "SiteList" (peer {| cmd := "GetSiteList"; params := None |}).

Definition obtainProfileList (peer : NativeRequest -> NativeReply) : Result JsProp :=
  awaitReply "ProfileList" (peer {| cmd := "GetProfileList"; params := None |}).

(** ** The document of the popup *)

(** An [<option>]: [new Option(text, value)]. Without a [value] attribute the
    value of an option is its text. *)
Record OptionEl := {
  text : string;
  value_attr : option string
}.

Definition option_value (o : OptionEl) : string :=
  default (text o) (value_attr o).

(** The [<select>] with id [web-app-profile], a drop-down with one selected
    option at most. *)
Record Select := {
  options : list OptionEl;
  selectedIndex : option nat
}.

(** The getter of [select.value]. *)
Definition select_value (s : Select) : string :=
  match selectedIndex s with
  | Some i => match options s !! i with
              | Some o => option_value o
              | None => ""
              end
  | None => ""
  end.

Fixpoint index_of_value (v : string) (l : list OptionEl) : option nat :=
  match l with
  | [] => None
  | o :: l' => if String.eqb (option_value o) v then Some 0
               else S <$> index_of_value v l'
  end.

(** The setter of [select.value]: the first option with that value becomes
    the selected one, no option if there is none. *)
Definition select_set_value (v : string) (s : Select) : Select :=
  {| options := options s; selectedIndex := index_of_value v (options s) |}.

(** [select.add(o)] with [selected] the selectedness of the new option. A
    drop-down without a selected option selects its first one. *)
Definition select_add (o : OptionEl) (selected : bool) (s : Select) : Select :=
  {| options := options s ++ [o];
     selectedIndex :=
       if selected then Some (length (options s))
       else match selectedIndex s with
            | Some i => Some i
            | None => Some 0
            end |}.

Record Button := {
  disabled : bool;
  innerText : string
}.

(** What the user has entered in the form: the result of
    [form.checkValidity()], the values of the text inputs and the values of
    the selected options of the two tag inputs. The handlers only read it. *)
Record Form := {
  checkValidity : bool;
  web_app_start_url : string;
  web_app_name : string;
  web_app_description : string;
  new_profile_name : string;
  new_profile_description : string;
  web_app_categories : list string;
  web_app_keywords : list string
}.

(** The parts of the document and of the closure of [initializeForm] that
    the handlers read and write. [sent] logs the messages passed to
    [sendNativeMessage], oldest first; [close_scheduled] is the timer of
    line 289. *)
Record UI := {
  form : Form;
  submit : Button;
  new_profile_create : Button;
  error_text : string;
  error_toast_shown : bool;
  new_profile_modal_shown : bool;
  profilesElement : Select;
  lastProfileSelection : string;
  sent : list NativeRequest;
  close_scheduled : bool
}.

Definition set_submit (b : Button) (ui : UI) : UI :=
  {| form := form ui; submit := b;
     new_profile_create := new_profile_create ui;
     error_text := error_text ui; error_toast_shown := error_toast_shown ui;
     new_profile_modal_shown := new_profile_modal_shown ui;
     profilesElement := profilesElement ui;
     lastProfileSelection := lastProfileSelection ui; sent := sent ui;
     close_scheduled := close_scheduled ui |}.

Definition set_new_profile_create (b : Button) (ui : UI) : UI :=
  {| form := form ui; submit := submit ui; new_profile_create := b;
     error_text := error_text ui; error_toast_shown := error_toast_shown ui;
     new_profile_modal_shown := new_profile_modal_shown ui;
     profilesElement := profilesElement ui;
     lastProfileSelection := lastProfileSelection ui; sent := sent ui;
     close_scheduled := close_scheduled ui |}.

Definition set_error_text (m : string) (ui : UI) : UI :=
  {| form := form ui; submit := submit ui;
     new_profile_create := new_profile_create ui; error_text := m;
     error_toast_shown := error_toast_shown ui;
     new_profile_modal_shown := new_profile_modal_shown ui;
     profilesElement := profilesElement ui;
     lastProfileSelection := lastProfileSelection ui; sent := sent ui;
     close_scheduled := close_scheduled ui |}.

Definition set_error_toast_shown (b : bool) (ui : UI) : UI :=
  {| form := form ui; submit := submit ui;
     new_profile_create := new_profile_create ui;
     error_text := error_text ui; error_toast_shown := b;
     new_profile_modal_shown := new_profile_modal_shown ui;
     profilesElement := profilesElement ui;
     lastProfileSelection := lastProfileSelection ui; sent := sent ui;
     close_scheduled := close_scheduled ui |}.

Definition set_new_profile_modal_shown (b : bool) (ui : UI) : UI :=
  {| form := form ui; submit := submit ui;
     new_profile_create := new_profile_create ui;
     error_text := error_text ui; error_toast_shown := error_toast_shown ui;
     new_profile_modal_shown := b; profilesElement := profilesElement ui;
     lastProfileSelection := lastProfileSelection ui; sent := sent ui;
     close_scheduled := close_scheduled ui |}.

Definition set_profilesElement (s : Select) (ui : UI) : UI :=
  {| form := form ui; submit := submit ui;
     new_profile_create := new_profile_create ui;
     error_text := error_text ui; error_toast_shown := error_toast_shown ui;
     new_profile_modal_shown := new_profile_modal_shown ui;
     profilesElement := s; lastProfileSelection := lastProfileSelection ui;
     sent := sent ui; close_scheduled := close_scheduled ui |}.

Definition set_lastProfileSelection (v : string) (ui : UI) : UI :=
  {| form := form ui; submit := submit ui;
     new_profile_create := new_profile_create ui;
     error_text := error_text ui; error_toast_shown := error_toast_shown ui;
     new_profile_modal_shown := new_profile_modal_shown ui;
     profilesElement := profilesElement ui; lastProfileSelection := v;
     sent := sent ui; close_scheduled := close_scheduled ui |}.

Definition set_sent (l : list NativeRequest) (ui : UI) : UI :=
  {| form := form ui; submit := submit ui;
     new_profile_create := new_profile_create ui;
     error_text := error_text ui; error_toast_shown := error_toast_shown ui;
     new_profile_modal_shown := new_profile_modal_shown ui;
     profilesElement := profilesElement ui;
     lastProfileSelection := lastProfileSelection ui; sent := l;
     close_scheduled := close_scheduled ui |}.

Definition set_close_scheduled (b : bool) (ui : UI) : UI :=
  {| form := form ui; submit := submit ui;
     new_profile_create := new_profile_create ui;
     error_text := error_text ui; error_toast_shown := error_toast_shown ui;
     new_profile_modal_shown := new_profile_modal_shown ui;
     profilesElement := profilesElement ui;
     lastProfileSelection := lastProfileSelection ui; sent := sent ui;
     close_scheduled := b |}.

(** ** Handlers as state transformers with exceptions *)

(** A handler runs on the document and either completes or throws; what it
    wrote before throwing stays written. An [async] handler is run to its end
    in one step: the reply of the native program is at hand when the message
    is sent. *)
Definition Action (A : Type) : Type := UI -> Result A * UI.

Definition ret {A} (a : A) : Action A := fun ui => (Ok a, ui).

Definition lift {A} (r : Result A) : Action A := fun ui => (r, ui).

Definition read {A} (f : UI -> A) : Action A := fun ui => (Ok (f ui), ui).

Definition update (f : UI -> UI) : Action unit := fun ui => (Ok tt, f ui).

Definition andThen {A B} (m : Action A) (k : A -> Action B) : Action B :=
  fun ui =>
    match m ui with
    | (Ok a, ui') => k a ui'
    | (Throw e, ui') => (Throw e, ui')
    end.

Notation "x <~ m ;; k" := (andThen m (fun x => k))
  (at level 100, m at next level, right associativity).
Notation "m ;;; k" := (andThen m (fun _ => k))
  (at level 100, right associativity).

(** [try { body } catch (error) { handler }]. *)
Definition try_catch {A} (body : Action A) (handler : JsError -> Action A) : Action A :=
  fun ui =>
    match body ui with
    | (Ok a, ui') => (Ok a, ui')
    | (Throw e, ui') => handler e ui'
    end.

(** [await browser.runtime.sendNativeMessage('firefoxpwa', request)]. *)
Definition sendNativeMessage (peer : NativeRequest -> NativeReply)
    (request : NativeRequest) : Action JsObject :=
  fun ui =>
    let ui' := set_sent (sent ui ++ [request]) ui in
    match peer request with
    | Rejected e => (Throw e, ui')
    | Replied response => (Ok response, ui')
    end.

(** *** The profile drop-down (lines 115-170) *)

(** The ['change'] listener of the drop-down (lines 124-132). *)
Definition profiles_onchange : Action unit :=
  value <~ read (fun ui => select_value (profilesElement ui)) ;;
  if negb (String.eqb value "create-new-profile") then
    update (set_lastProfileSelection value)
  else
    update (set_new_profile_modal_shown true).

(** The ['click'] listener of [new-profile-cancel] (lines 134-136). *)
Definition new_profile_cancel_onclick : Action unit :=
  update (fun ui =>
    set_profilesElement
      (select_set_value (lastProfileSelection ui) (profilesElement ui)) ui).

Definition nullable (o : option string) : JsValue :=
  match o with
  | Some s => JStr s
  | None => JNull
  end.

(** [new Option(name, id, true, true)] with [name] a string or [null] and
    [id] possibly [undefined]: the text of [null] is ["null"], and an
    [undefined] value leaves the option without a [value] attribute. *)
Definition new_Option (name : option string) (id : JsProp) : OptionEl :=
  {| text := ToString (nullable name); value_attr := ToString <$> id |}.

(** The ['click'] listener of [new-profile-create] (lines 138-170). *)
Definition new_profile_create_onclick (peer : NativeRequest -> NativeReply) : Action unit :=
  name <~ read (fun ui => orNull (new_profile_name (form ui))) ;;
  description <~ read (fun ui => orNull (new_profile_description (form ui))) ;;
  update (set_new_profile_create {| disabled := true; innerText := "Creating..." |}) ;;;
  id <~ try_catch
          (response <~ sendNativeMessage peer
             {| cmd := "CreateProfile";
                params := Some (<["name" := nullable name]>
                               (<["description" := nullable description]> ∅)) |} ;;
           data <~ lift (checkResponse "ProfileCreated" response) ;;
           update (set_error_toast_shown false) ;;;
           ret data)
          (fun error =>
             update (set_error_text (message_of error)) ;;;
             update (set_error_toast_shown true) ;;;
             ret None) ;;
  update (fun ui =>
    set_profilesElement (select_add (new_Option name id) true (profilesElement ui)) ui) ;;;
  update (set_new_profile_modal_shown false).

(** *** The tag inputs and the submission (lines 109-113 and 234-298) *)

(** [manifest.categories || []] and [manifest.keywords || []] of lines 110
    and 113: the value whose items seed the tag inputs. *)
Definition orEmptyArray (p : JsProp) : JsValue :=
  if truthy p then default (JArr []) p else JArr [].


(** [user.toString() !== fromManifest.toString() ? user : []] (lines 255 and
    259). *)
Definition overrideOf (user : list string) (fromManifest : JsProp) : Result (list string) :=
  m <- callToString fromManifest ;;
  Ok (if negb (String.eqb (arrayToString user) m) then user else []).

(** The [params] of the [InstallSite] message (lines 265-274). *)
Definition installParams (manifestUrl documentUrl : string)
    (startUrl profile name description : option string)
    (categories keywords : list string) : JsObject :=
  <["manifest_url" := JStr manifestUrl]>
  (<["document_url" := JStr documentUrl]>
  (<["start_url" := nullable startUrl]>
  (<["profile" := nullable profile]>
  (<["name" := nullable name]>
  (<["description" := nullable description]>
  (<["categories" := JArr (JStr <$> categories)]>
  (<["keywords" := JArr (JStr <$> keywords)]> ∅))))))).

(** [submit.onclick]. *)
Definition submit_onclick (manifestUrl documentUrl : string) (manifest : JsObject)
    (peer : NativeRequest -> NativeReply) : Action unit :=
  valid <~ read (fun ui => checkValidity (form ui)) ;;
  if negb valid then ret tt else
  update (set_submit {| disabled := true; innerText := "Installing web app..." |}) ;;;
  startUrl <~ read (fun ui => orNull (web_app_start_url (form ui))) ;;
  profile <~ read (fun ui => orNull (select_value (profilesElement ui))) ;;
  name <~ read (fun ui => orNull (web_app_name (form ui))) ;;
  description <~ read (fun ui => orNull (web_app_description (form ui))) ;;
  userCategories <~ read (fun ui => web_app_categories (form ui)) ;;
  categories <~ lift (overrideOf userCategories (manifest !! "categories")) ;;
  userKeywords <~ read (fun ui => web_app_keywords (form ui)) ;;
  keywords <~ lift (overrideOf userKeywords (manifest !! "keywords")) ;;
  try_catch
    (response <~ sendNativeMessage peer
       {| cmd := "InstallSite";
          params := Some (installParams manifestUrl documentUrl startUrl profile
                            name description categories keywords) |} ;;
     lift (checkResponse "SiteInstalled" response) ;;;
     update (set_error_toast_shown false) ;;;
     update (set_submit {| disabled := true; innerText := "Web app installed!" |}) ;;;
     update (set_close_scheduled true))
    (fun error =>
       update (set_error_text (message_of error)) ;;;
       update (set_error_toast_shown true)).

(** *** The form as a transition system *)

(** What happens to the popup once [initializeForm] has wired it. A click on
    a button that sends a message carries the reply that the native program
    gives to it; a disabled button does not receive clicks. *)
Inductive Event :=
| UserSelects (i : nat)
| ClickCancel
| ClickCreate (reply : NativeReply)
| ClickSubmit (reply : NativeReply).

(** The browser selects option [i] when the user picks it, then fires
    ['change']. *)
Definition user_selects (i : nat) : Action unit :=
  update (fun ui =>
    set_profilesElement
      {| options := options (profilesElement ui); selectedIndex := Some i |} ui) ;;;
  profiles_onchange.

Definition step (manifestUrl documentUrl : string) (manifest : JsObject)
    (e : Event) (ui : UI) : UI :=
  match e with
  | UserSelects i => snd (user_selects i ui)
  | ClickCancel => snd (new_profile_cancel_onclick ui)
  | ClickCreate reply =>
      if disabled (new_profile_create ui) then ui
      else snd (new_profile_create_onclick (fun _ => reply) ui)
  | ClickSubmit reply =>
      if disabled (submit ui) then ui
      else snd (submit_onclick manifestUrl documentUrl manifest (fun _ => reply) ui)
  end.

Definition run (manifestUrl documentUrl : string) (manifest : JsObject)
    (events : list Event) (ui : UI) : UI :=
  foldl (fun ui e => step manifestUrl documentUrl manifest e ui) ui events.

Section Validation.
Context {api : UrlApi}.

(** [startUrlValidation] (lines 200-227) on an input whose value is [value]
    and whose [validity.typeMismatch] is [typeMismatch]. The result is the
    argument of the call of [setCustomValidity]: the empty string marks the
    input valid. *)
Definition startUrlValidation (manifest : JsObject) (value : string)
    (typeMismatch : bool) : Result string :=
  if String.eqb value "" then Ok ""
  else if typeMismatch then Ok "Start URL needs to be a valid URL"
  else
    startUrl <- URL_new value None ;;
    scope <- URL_new (ToStringP (manifest !! "scope")) None ;;
    if outsideScope startUrl scope then
      Ok ("Start URL needs to be within the scope: " +:+ href scope)
    else
      Ok "".

End Validation.

(** ** An executable URL class for plain [http(s)] URLs

    [MiniURL] follows the parser of the URL Standard on the inputs that need
    no normalisation other than the removal of dot segments: a lower-case
    scheme [http] or [https], a host of lower-case letters and dots (no
    port, no credentials), and path, query and fragment made of unreserved
    characters. Every other input is refused, as if invalid. *)
Module MiniURL.

Abbreviation chars := (list ascii).

Record Url := {
  scheme : chars;
  hostname : chars;
  path : list chars;
  query : option chars;
  fragment : option chars
}.

Definition between (lo hi : N) (c : ascii) : bool :=
  ((lo <=? N_of_ascii c) && (N_of_ascii c <=? hi))%N.

Definition is_lower : ascii -> bool := between 97 122.
Definition is_upper : ascii -> bool := between 65 90.
Definition is_digit : ascii -> bool := between 48 57.

Definition one_of (l : chars) (c : ascii) : bool := existsb (Ascii.eqb c) l.

Definition unreserved (c : ascii) : bool :=
  is_lower c || is_upper c || is_digit c
  || one_of ["-"; "."; "_"; "~"]%char c.

Definition host_char (c : ascii) : bool :=
  is_lower c || one_of ["."]%char c.

Definition path_char (c : ascii) : bool := unreserved c.
Definition query_char (c : ascii) : bool := unreserved c || one_of ["="; "&"]%char c.
Definition fragment_char (c : ascii) : bool := unreserved c.

(** [split_at c s]: what precedes the first [c] of [s], and what follows it
    when there is one. *)
Fixpoint split_at (c : ascii) (s : chars) : chars * option chars :=
  match s with
  | [] => ([], None)
  | x :: r =>
      if Ascii.eqb x c then ([], Some r)
      else let (before, after) := split_at c r in (x :: before, after)
  end.

(** The pieces of [s] between the occurrences of [c]. *)
Fixpoint split_on (c : ascii) (s : chars) : list chars :=
  match s with
  | [] => [[]]
  | x :: r =>
      if Ascii.eqb x c then [] :: split_on c r
      else match split_on c r with
           | seg :: segs => (x :: seg) :: segs
           | [] => [[x]]
           end
  end.

Fixpoint join (c : ascii) (segs : list chars) : chars :=
  match segs with
  | [] => []
  | [seg] => seg
  | seg :: rest => seg ++ c :: join c rest
  end.

Definition chars_eqb (a b : chars) : bool := bool_decide (a = b).

Definition is_dot (seg : chars) : bool := chars_eqb seg ["."]%char.
Definition is_dotdot (seg : chars) : bool := chars_eqb seg ["."; "."]%char.

(** Shortening a path drops its last segment. *)
Definition shorten (p : list chars) : list chars := removelast p.

(** The path state of the parser: segments are appended to [acc]; a
    double-dot segment shortens the path, a single-dot segment is skipped,
    and either one leaves an empty segment when it ends the input. *)
Fixpoint walk (acc : list chars) (segs : list chars) : list chars :=
  match segs with
  | [] => acc
  | seg :: rest =>
      let closing := match rest with [] => [[]] | _ => [] end in
      if is_dotdot seg then walk (shorten acc ++ closing) rest
      else if is_dot seg then walk (acc ++ closing) rest
      else walk (acc ++ [seg]) rest
  end.

Definition opt_forallb (f : ascii -> bool) (o : option chars) : bool :=
  match o with
  | Some s => forallb f s
  | None => true
  end.

Definition strip_scheme (s : chars) : option (chars * chars) :=
  match s with
  | "h" :: "t" :: "t" :: "p" :: ":" :: "/" :: "/" :: rest =>
      Some (["h"; "t"; "t"; "p"], rest)
  | "h" :: "t" :: "t" :: "p" :: "s" :: ":" :: "/" :: "/" :: rest =>
      Some (["h"; "t"; "t"; "p"; "s"], rest)
  | _ => None
  end%char.

(** An absolute URL: scheme, host, then path, query and fragment. *)
Definition parse_abs (s : chars) : option Url :=
  match strip_scheme s with
  | None => None
  | Some (sch, rest) =>
      let beforeHash := split_at "#" rest in
      let beforeQuery := split_at "?" (fst beforeHash) in
      let hostAndPath := split_at "/" (fst beforeQuery) in
      let segs := split_on "/" (default [] (snd hostAndPath)) in
      if negb (bool_decide (fst hostAndPath = []))
         && forallb host_char (fst hostAndPath)
         && forallb (forallb path_char) segs
         && opt_forallb query_char (snd beforeQuery)
         && opt_forallb fragment_char (snd beforeHash)
      then Some {| scheme := sch; hostname := fst hostAndPath;
                   path := walk [] segs;
                   query := snd beforeQuery; fragment := snd beforeHash |}
      else None
  end.

(** A relative reference against a parsed base: the empty reference and
    the ones that start with [?] or [#] keep the path of the base, a leading
    slash restarts the path, anything else continues the shortened path of
    the base. A reference that starts with two slashes is refused. *)
Definition resolve (base : Url) (s : chars) : option Url :=
  let beforeHash := split_at "#" s in
  let beforeQuery := split_at "?" (fst beforeHash) in
  let p := fst beforeQuery in
  let newPath :=
    match p with
    | [] => Some (path base)
    | "/" :: "/" :: _ => None
    | "/" :: p' =>
        if forallb (forallb path_char) (split_on "/" p')
        then Some (walk [] (split_on "/" p')) else None
    | _ =>
        if forallb (forallb path_char) (split_on "/" p)
        then Some (walk (shorten (path base)) (split_on "/" p)) else None
    end%char in
  match newPath with
  | Some segs =>
      if opt_forallb query_char (snd beforeQuery)
         && opt_forallb fragment_char (snd beforeHash)
      then Some {| scheme := scheme base; hostname := hostname base;
                   path := segs;
                   query := match p, snd beforeQuery with
                            | [], None => query base
                            | _, q => q
                            end;
                   fragment := snd beforeHash |}
      else None
  | None => None
  end.

Definition parse (s : string) (base : option string) : option Url :=
  match base with
  | None => parse_abs (list_ascii_of_string s)
  | Some b =>
      match parse_abs (list_ascii_of_string b) with
      | None => None
      | Some ub =>
          match strip_scheme (list_ascii_of_string s) with
          | Some _ => parse_abs (list_ascii_of_string s)
          | None => resolve ub (list_ascii_of_string s)
          end
      end
  end.

Definition origin_chars (u : Url) : chars :=
  scheme u ++ [":"; "/"; "/"]%char ++ hostname u.

Definition pathname_chars (u : Url) : chars :=
  "/"%char :: join "/" (path u).

Definition href_chars (u : Url) : chars :=
  origin_chars u ++ pathname_chars u
  ++ match query u with Some q => "?"%char :: q | None => [] end
  ++ match fragment u with Some f => "#"%char :: f | None => [] end.

(** A segment that the parser keeps as it is. *)
Definition plain_segment (seg : chars) : Prop :=
  forallb path_char seg = true /\ is_dot seg = false /\ is_dotdot seg = false.

(** The URLs that the parser produces. *)
Record wf (u : Url) : Prop := {
  wf_scheme : scheme u = ["h"; "t"; "t"; "p"]%char \/ scheme u = ["h"; "t"; "t"; "p"; "s"]%char;
  wf_host_nonempty : hostname u ≠ [];
  wf_host : forallb host_char (hostname u) = true;
  wf_path_nonempty : path u ≠ [];
  wf_path : Forall plain_segment (path u);
  wf_query : opt_forallb query_char (query u) = true;
  wf_fragment : opt_forallb fragment_char (fragment u) = true
}.

End MiniURL.

#[export] Instance mini_url : UrlApi := {|
  URL := MiniURL.Url;
  newURL := MiniURL.parse;
  href u := string_of_list_ascii (MiniURL.href_chars u);
  origin u := string_of_list_ascii (MiniURL.origin_chars u);
  pathname u := string_of_list_ascii (MiniURL.pathname_chars u);
  host u := string_of_list_ascii (MiniURL.hostname u)
|}.

(** ** A popup to run the handlers on *)

(** The state in which [initializeForm] leaves the popup (lines 115-123 and
    172-175) for the given profile options and a form with the given name
    for a new profile and the given selected tags: the drop-down holds the
    options, then the one that creates a profile, and shows the first of
    them. The label of the button that creates a profile is the one of the
    page, left empty here. *)
Definition initial_ui (profiles : list OptionEl) (newProfileName : string)
    (categories keywords : list string) : UI :=
  let select :=
    select_add {| text := "Create a new profile"; value_attr := Some "create-new-profile" |}
      false
      (foldl (fun s o => select_add o false s)
         {| options := []; selectedIndex := None |} profiles) in
  {| form := {| checkValidity := true;
                web_app_start_url := ""; web_app_name := ""; web_app_description := "";
                new_profile_name := newProfileName; new_profile_description := "";
                web_app_categories := categories; web_app_keywords := keywords |};
     submit := {| disabled := false; innerText := "Install web app" |};
     new_profile_create := {| disabled := false; innerText := "" |};
     error_text := ""; error_toast_shown := false;
     new_profile_modal_shown := false;
     profilesElement := select;
     lastProfileSelection := select_value select;
     sent := []; close_scheduled := false |}.

(** A reply [{ type, data }] of the native program. *)
Definition reply_of (type : string) (data : JsValue) : NativeReply :=
  Replied (<["type" := JStr type]> (<["data" := data]> ∅)).

(** A network that serves one manifest. *)
Definition serving (manifestUrl : string) (manifest : JsObject) (url : string)
  : Result JsObject :=
  if String.eqb url manifestUrl then Ok manifest
  else Throw (TypeError "NetworkError when attempting to fetch resource.").

(** ** The rest of [initializeForm]

    The parts of [initializeForm] that the handlers above do not cover: the
    loading of the manifest and of the two lists (lines 77-94), the default
    name (lines 96-107), the options of the profile drop-down (lines 115-123)
    and the validation of the name (lines 178-197). *)

(** [v.k] for a property name [k] that no prototype defines ([config],
    [manifest], [name], [short_name], [ulid]): reading from [undefined] or
    [null] throws, a primitive or an array has no such property. *)
Definition getProp (v : JsProp) (k : string) : Result JsProp :=
  match v with
  | None | Some JNull => Throw (TypeError "property of undefined or null")
  | Some (JObj fields) => Ok (fields !! k)
  | Some _ => Ok None
  end.

(** [Object.values(v)]. The values of an object come in the order of
    [map_to_list], which is not the order of JavaScript; a string gives its
    characters (one per byte here). *)
Definition objectValues (v : JsProp) : Result (list JsValue) :=
  match v with
  | None | Some JNull => Throw (TypeError "Object.values of undefined or null")
  | Some (JObj fields) => Ok (snd <$> map_to_list fields)
  | Some (JArr items) => Ok items
  | Some (JStr s) => Ok ((fun c => JStr (String c "")) <$> list_ascii_of_string s)
  | Some (JBool _) | Some (JNum _) => Ok []
  end.

(** [l.map(f)] for a callback that may throw. *)
Fixpoint mapResult {A B} (f : A -> Result B) (l : list A) : Result (list B) :=
  match l with
  | [] => Ok []
  | x :: l' =>
      y <- f x ;;
      ys <- mapResult f l' ;;
      Ok (y :: ys)
  end.

(** [site.config.name || site.manifest.name || site.manifest.short_name],
    the callback of line 183; [||] evaluates its right operand only when the
    left one is falsy. *)
Definition siteName (site : JsValue) : Result JsProp :=
  config <- getProp (Some site) "config" ;;
  name <- getProp config "name" ;;
  if truthy name then Ok name else
  manifest <- getProp (Some site) "manifest" ;;
  name <- getProp manifest "name" ;;
  if truthy name then Ok name else
  manifest <- getProp (Some site) "manifest" ;;
  getProp manifest "short_name".

(** [nameValidation] (lines 178-193) on an input whose value is [value] and
    whose placeholder is [placeholder], with [sites] the data of the site
    list. The result is the argument of the call of [setCustomValidity]. *)
Definition nameValidation (sites : JsProp) (value placeholder : string) : Result string :=
  let currentName := if String.eqb value "" then placeholder else value in
  values <- objectValues sites ;;
  existingNames <- mapResult siteName values ;;
  if existsb (fun name => strictEqStr name currentName) existingNames then
    Ok "Site name must not be reused from existing web apps"
  else
    Ok "".

(** [new Option(profile.name || profile.ulid, profile.ulid)] of line 117: an
    [undefined] text is the empty text, an [undefined] value leaves the
    option without a [value] attribute. *)
Definition profileOption (profile : JsValue) : Result OptionEl :=
  name <- getProp (Some profile) "name" ;;
  label <- (if truthy name then Ok name else getProp (Some profile) "ulid") ;;
  ulid <- getProp (Some profile) "ulid" ;;
  Ok {| text := match label with
                | None => ""
                | Some v => ToString v
                end;
        value_attr := ToString <$> ulid |}.

(** The loop of line 117: an option is added for each profile in turn. *)
Fixpoint addProfiles (profiles : list JsValue) : Action unit :=
  match profiles with
  | [] => ret tt
  | profile :: rest =>
      option <~ lift (profileOption profile) ;;
      update (fun ui =>
        set_profilesElement (select_add option false (profilesElement ui)) ui) ;;;
      addProfiles rest
  end.

(** Lines 115-123: the options of the profiles, the option that creates a
    profile, and the first value of [lastProfileSelection]. *)
Definition populateProfiles (profiles : JsProp) : Action unit :=
  values <~ lift (objectValues profiles) ;;
  addProfiles values ;;;
  update (fun ui =>
    set_profilesElement
      (select_add {| text := "Create a new profile";
                     value_attr := Some "create-new-profile" |}
         false (profilesElement ui)) ui) ;;;
  value <~ read (fun ui => select_value (profilesElement ui)) ;;
  update (set_lastProfileSelection value).

(** A native call that is logged in [sent]: what [obtainSiteList] and
    [obtainProfileList] do when they run inside [initializeForm]. *)
Definition callNative (peer : NativeRequest -> NativeReply) (expected : string)
    (request : NativeRequest) : Action JsProp :=
  response <~ sendNativeMessage peer request ;;
  lift (checkResponse expected response).

Section Loading.
Context {api : UrlApi}.

(** Lines 77-94, with [manifestUrl] and [documentUrl] the answer of the
    content script to [obtainUrls]. The manifest is obtained outside the
    [try] block; a failure of one of the two lists is shown and ends
    [initializeForm] ([None]). *)
Definition loadForm (fetchJson : string -> Result JsObject)
    (manifestUrl documentUrl : string) (peer : NativeRequest -> NativeReply)
  : Action (option (JsObject * JsProp * JsProp)) :=
  manifest <~ lift (obtainManifest fetchJson manifestUrl documentUrl) ;;
  try_catch
    (sites <~ callNative peer "SiteList" {| cmd := "GetSiteList"; params := None |} ;;
     profiles <~ callNative peer "ProfileList"
                   {| cmd := "GetProfileList"; params := None |} ;;
     ret (Some (manifest, sites, profiles)))
    (fun error =>
       update (set_error_text (message_of error)) ;;;
       update (set_error_toast_shown true) ;;;
       ret None).

(** Lines 96-99: the name of the manifest, else its short name, else the
    host of its scope. *)
Definition defaultName (manifest : JsObject) : Result JsProp :=
  let name := manifest !! "name" in
  let name := if negb (truthy name) then manifest !! "short_name" else name in
  if negb (truthy name) then
    u <- URL_new (ToStringP (manifest !! "scope")) None ;;
    Ok (Some (JStr (host u)))
  else
    Ok name.

(** The placeholder that line 105 gives to the name input. *)
Definition namePlaceholder (manifest : JsObject) : Result string :=
  name <- defaultName manifest ;;
  Ok (ToStringP name).

End Loading.

(** ** Sessions

    Between two events of the popup the user may change what the form
    holds. *)
Definition set_form (f : Form) (ui : UI) : UI :=
  {| form := f; submit := submit ui;
     new_profile_create := new_profile_create ui;
     error_text := error_text ui; error_toast_shown := error_toast_shown ui;
     new_profile_modal_shown := new_profile_modal_shown ui;
     profilesElement := profilesElement ui;
     lastProfileSelection := lastProfileSelection ui; sent := sent ui;
     close_scheduled := close_scheduled ui |}.

Inductive Interaction :=
| Edits (f : Form)
| Does (e : Event).

Definition interact (manifestUrl documentUrl : string) (manifest : JsObject)
    (i : Interaction) (ui : UI) : UI :=
  match i with
  | Edits f => set_form f ui
  | Does e => step manifestUrl documentUrl manifest e ui
  end.

Definition session (manifestUrl documentUrl : string) (manifest : JsObject)
    (interactions : list Interaction) (ui : UI) : UI :=
  foldl (fun ui i => interact manifestUrl documentUrl manifest i ui) ui interactions.

(** The number of messages with command [c] in a log. *)
Definition count_cmd (c : string) (log : list NativeRequest) : nat :=
  length (filter (fun request => cmd request = c) log).

(** The value of some option of the drop-down, or the empty value that a
    drop-down without selection has. *)
Definition selectable (v : string) (s : Select) : Prop :=
  v = "" \/ exists o, o ∈ options s /\ option_value o = v.

(** What the drop-down keeps at every moment of a session. *)
Definition settled (ui : UI) : Prop :=
  selectable (lastProfileSelection ui) (profilesElement ui)
  /\ lastProfileSelection ui <> "create-new-profile".

(** A command has been sent once at most, and not at all while its button is
    enabled. *)
Definition once (c : string) (b : Button) (ui : UI) : Prop :=
  count_cmd c (sent ui) <= 1
  /\ (disabled b = false -> count_cmd c (sent ui) = 0).

(** A tag that [toString] keeps apart from its neighbours: not empty and
    without a comma. *)
Fixpoint mentions (c : ascii) (s : string) : bool :=
  match s with
  | EmptyString => false
  | String x rest => Ascii.eqb x c || mentions c rest
  end.

Definition plain_tag (s : string) : Prop :=
  s <> "" /\ mentions "," s = false.

(** The serialization of a URL is never the empty string. *)
Class UrlNonEmpty (api : UrlApi) := {
  href_nonempty : forall u : URL, href u <> ""
}.

(** * Properties *)

(** ** The URL class [MiniURL] satisfies [UrlLaws] *)

Module MiniURLFacts.
Import MiniURL.
#[local] Open Scope list_scope.

Lemma split_at_app c a b :
  Forall (fun x => x ≠ c) a ->
  split_at c (a ++ b) = (a ++ fst (split_at c b), snd (split_at c b)).
Proof.
  induction 1 as [|x a Hx _ IH]; simpl.
  - by destruct (split_at c b).
  - destruct (Ascii.eqb_spec x c) as [->|_]; [done|].
    by rewrite IH.
Qed.

Lemma split_at_hit c b : split_at c (c :: b) = ([], Some b).
Proof. simpl. by rewrite Ascii.eqb_refl. Qed.

Lemma split_on_nonempty c s : split_on c s ≠ [].
Proof.
  destruct s as [|x r]; [done|]. simpl.
  destruct (Ascii.eqb x c); [done|]. by destruct (split_on c r).
Qed.

Lemma split_on_cons_seg c seg s :
  Forall (fun x => x ≠ c) seg ->
  split_on c (seg ++ s) =
    match split_on c s with
    | first :: segs => (seg ++ first) :: segs
    | [] => [seg]
    end.
Proof.
  induction 1 as [|x seg Hx _ IH]; simpl.
  - destruct (split_on c s) eqn:E; [by apply split_on_nonempty in E | done].
  - destruct (Ascii.eqb_spec x c) as [->|_]; [done|].
    rewrite IH. by destruct (split_on c s).
Qed.

Lemma split_on_join c segs :
  segs ≠ [] ->
  Forall (Forall (fun x => x ≠ c)) segs ->
  split_on c (join c segs) = segs.
Proof.
  intros Hne H. induction H as [|seg rest Hseg Hrest IH]; [done|].
  destruct rest as [|seg' rest'].
  - simpl. rewrite <- (app_nil_r seg) at 1.
    rewrite split_on_cons_seg by done. simpl. by rewrite app_nil_r.
  - change (join c (seg :: seg' :: rest')) with (seg ++ c :: join c (seg' :: rest')).
    rewrite split_on_cons_seg by done.
    cbn [split_on]. rewrite Ascii.eqb_refl, IH by done.
    by rewrite app_nil_r.
Qed.

Lemma walk_plain acc segs :
  Forall plain_segment segs -> walk acc segs = acc ++ segs.
Proof.
  intros H. revert acc.
  induction H as [|seg rest (_ & Hd & Hdd) _ IH]; intros acc; simpl.
  - by rewrite app_nil_r.
  - rewrite Hd, Hdd, IH. by rewrite <- app_assoc.
Qed.

Lemma Forall_removelast {A} (P : A -> Prop) l : Forall P l -> Forall P (removelast l).
Proof.
  induction 1 as [|x l Hx Hl IH]; [done|].
  simpl. destruct l; [done|]. by constructor.
Qed.

Lemma walk_keeps_plain acc segs :
  Forall plain_segment acc ->
  forallb (forallb path_char) segs = true ->
  Forall plain_segment (walk acc segs).
Proof.
  revert acc. induction segs as [|seg rest IH]; intros acc Hacc Hsegs; [done|].
  simpl in Hsegs. apply andb_prop in Hsegs as [Hseg Hrest].
  assert (Hclosing : Forall plain_segment (match rest with [] => [[]] | _ => [] end)).
  { destruct rest; [by repeat constructor | constructor]. }
  simpl. destruct (is_dotdot seg) eqn:Hdd; [|destruct (is_dot seg) eqn:Hd].
  - apply IH; [|done]. apply Forall_app. split; [|done].
    by apply Forall_removelast.
  - apply IH; [|done]. by apply Forall_app.
  - apply IH; [|done]. apply Forall_app. split; [done|].
    by repeat constructor.
Qed.

Lemma walk_nonempty acc segs : segs ≠ [] -> walk acc segs ≠ [].
Proof.
  revert acc. induction segs as [|seg rest IH]; intros acc Hne; [done|].
  destruct rest as [|seg' rest'].
  - simpl. destruct (is_dotdot seg), (is_dot seg); simpl;
      by intros []%app_eq_nil.
  - assert (Hr : seg' :: rest' ≠ []) by done.
    cbn [walk]. destruct (is_dotdot seg), (is_dot seg); by apply IH.
Qed.

Lemma strip_scheme_inv s sch rest :
  strip_scheme s = Some (sch, rest) ->
  (sch = ["h"; "t"; "t"; "p"]%char \/ sch = ["h"; "t"; "t"; "p"; "s"]%char)
  /\ s = sch ++ [":"; "/"; "/"]%char ++ rest.
Proof.
  unfold strip_scheme. intros H.
  repeat (match type of H with
          | match ?x with _ => _ end = _ => destruct x; try discriminate
          end);
  inversion H; subst; split; auto;
  repeat match goal with
         | a : ascii |- _ => destruct a
         | b : bool |- _ => destruct b; try discriminate
         end.
Qed.

Lemma forallb_avoids (f : ascii -> bool) (d : ascii) (l : chars) :
  f d = false -> forallb f l = true -> Forall (fun x => x ≠ d) l.
Proof.
  intros Hd Hl. apply Forall_forall. intros x Hx ->.
  rewrite forallb_forall in Hl. specialize (Hl d).
  rewrite Hd in Hl. apply list_elem_of_In in Hx. by specialize (Hl Hx).
Qed.

Lemma Forall_join (P : ascii -> Prop) c segs :
  P c -> Forall (Forall P) segs -> Forall P (join c segs).
Proof.
  intros Hc. induction 1 as [|seg rest Hseg Hrest IH]; [done|].
  destruct rest; [done|].
  change (Forall P (seg ++ c :: join c (l :: rest))).
  apply Forall_app. split; [done|]. by constructor.
Qed.

Lemma split_at_delim c a (o : option chars) :
  Forall (fun x => x ≠ c) a ->
  split_at c (a ++ match o with Some f => c :: f | None => [] end) = (a, o).
Proof.
  intros Ha. rewrite split_at_app by done.
  destruct o as [f|]; [rewrite split_at_hit|]; simpl; by rewrite app_nil_r.
Qed.

Lemma plain_segments_avoid d segs :
  path_char d = false ->
  Forall plain_segment segs -> Forall (Forall (fun x => x ≠ d)) segs.
Proof.
  intros Hd Hsegs. eapply Forall_impl; [exact Hsegs|].
  intros seg (Hseg & _). by apply forallb_avoids with path_char.
Qed.

Lemma plain_segments_chars segs :
  Forall plain_segment segs -> forallb (forallb path_char) segs = true.
Proof.
  induction 1 as [|seg rest (Hseg & _) _ IH]; [done|].
  simpl. by rewrite Hseg, IH.
Qed.

Lemma strip_scheme_href (u : Url) rest :
  wf u ->
  strip_scheme (origin_chars u ++ rest) = Some (scheme u, hostname u ++ rest).
Proof.
  intros Hu. unfold origin_chars.
  by destruct (wf_scheme u Hu) as [-> | ->].
Qed.

Lemma parse_abs_href (u : Url) : wf u -> parse_abs (href_chars u) = Some u.
Proof.
  intros Hu. destruct Hu as [Hs Hhne Hh Hpne Hp Hq Hf] eqn:E. clear E.
  assert (Hwf : wf u) by done.
  unfold parse_abs, href_chars. rewrite strip_scheme_href by done.
  unfold pathname_chars.
  set (q := query u) in *. set (f := fragment u) in *.
  assert (Hjoin : forall d, path_char d = false -> d ≠ "/"%char ->
            Forall (fun x => x ≠ d) (join "/" (path u))).
  { intros d Hd Hslash. apply Forall_join; [done|].
    by apply plain_segments_avoid. }
  assert (Hhash : Forall (fun x => x ≠ "#"%char)
            (hostname u ++ ("/"%char :: join "/" (path u))
             ++ match q with Some q => "?"%char :: q | None => [] end)).
  { apply Forall_app; split; [by apply forallb_avoids with host_char|].
    apply Forall_app; split; [constructor; [done|by apply Hjoin]|].
    destruct q as [q'|]; [|done]. constructor; [done|].
    by apply forallb_avoids with query_char. }
  replace (hostname u ++ ("/"%char :: join "/" (path u))
           ++ match q with Some q => "?"%char :: q | None => [] end
           ++ match f with Some f => "#"%char :: f | None => [] end)
    with ((hostname u ++ ("/"%char :: join "/" (path u))
           ++ match q with Some q => "?"%char :: q | None => [] end)
          ++ match f with Some f => "#"%char :: f | None => [] end)
    by (by rewrite <- !app_assoc).
  rewrite split_at_delim by done. cbn [fst snd].
  replace (hostname u ++ ("/"%char :: join "/" (path u))
           ++ match q with Some q => "?"%char :: q | None => [] end)
    with ((hostname u ++ ("/"%char :: join "/" (path u)))
          ++ match q with Some q => "?"%char :: q | None => [] end)
    by (by rewrite <- !app_assoc).
  rewrite split_at_delim.
  2:{ apply Forall_app; split; [by apply forallb_avoids with host_char|].
      constructor; [done|by apply Hjoin]. }
  cbn [fst snd].
  rewrite (split_at_delim "/" (hostname u) (Some (join "/" (path u))))
    by (by apply forallb_avoids with host_char).
  cbn [fst snd default from_option id].
  rewrite split_on_join by (done || by apply plain_segments_avoid).
  rewrite Hh, Hq, Hf, plain_segments_chars by done.
  rewrite bool_decide_eq_false_2 by done.
  rewrite walk_plain by done. simpl.
  by destruct u.
Qed.

Lemma parse_abs_wf s u : parse_abs s = Some u -> wf u.
Proof.
  unfold parse_abs. destruct (strip_scheme s) as [[sch rest]|] eqn:Hs; [|done].
  apply strip_scheme_inv in Hs as [Hsch _].
  destruct (_ && _) eqn:Hc; [|done]. intros [= <-].
  repeat (apply andb_prop in Hc as [Hc ?]).
  apply negb_true_iff, bool_decide_eq_false in Hc.
  split; simpl; try done.
  - apply walk_nonempty, split_on_nonempty.
  - by apply walk_keeps_plain.
Qed.

Lemma resolve_wf base s u : wf base -> resolve base s = Some u -> wf u.
Proof.
  intros Hb. unfold resolve.
  set (p := fst (split_at "?" (fst (split_at "#" s)))).
  set (q := snd (split_at "?" (fst (split_at "#" s)))).
  set (f := snd (split_at "#" s)).
  match goal with |- match ?np with _ => _ end = _ -> _ => destruct np as [segs|] eqn:Hnp end;
    [|done].
  destruct (_ && _) eqn:Hc; [|done]. intros [= <-].
  apply andb_prop in Hc as [Hq Hf].
  assert (Hsegs : segs ≠ [] /\ Forall plain_segment segs).
  { destruct p as [|c p'].
    - injection Hnp as <-. split; [apply (wf_path_nonempty _ Hb) | apply (wf_path _ Hb)].
    - destruct (Ascii.eqb_spec c "/"%char) as [->|Hc].
      + destruct p' as [|c' p''].
        * injection Hnp as <-. split; [done | by repeat constructor].
        * destruct (Ascii.eqb_spec c' "/"%char) as [->|Hc']; [done|].
          assert (Hnp' : (if forallb (forallb path_char) (split_on "/" (c' :: p''))
                          then Some (walk [] (split_on "/" (c' :: p''))) else None)
                         = Some segs).
          { revert Hnp. clear -Hc'.
            destruct c' as [[] [] [] [] [] [] [] []]; try done. }
          destruct (forallb _ _) eqn:Hch; [|done].
          assert (segs = walk [] (split_on "/" (c' :: p''))) as -> by congruence.
          split; [apply walk_nonempty, split_on_nonempty | by apply walk_keeps_plain].
      + assert (Hnp' : (if forallb (forallb path_char) (split_on "/" (c :: p'))
                        then Some (walk (shorten (path base)) (split_on "/" (c :: p')))
                        else None) = Some segs).
        { revert Hnp. clear -Hc.
          destruct c as [[] [] [] [] [] [] [] []]; try done. }
        destruct (forallb _ _) eqn:Hch; [|done].
        assert (segs = walk (shorten (path base)) (split_on "/" (c :: p'))) as ->
          by congruence.
        split; [apply walk_nonempty, split_on_nonempty |].
        apply walk_keeps_plain; [|done].
        apply Forall_removelast, (wf_path _ Hb). }
  destruct Hsegs as [Hne Hplain].
  split; simpl; try done.
  - apply (wf_scheme _ Hb).
  - apply (wf_host_nonempty _ Hb).
  - apply (wf_host _ Hb).
  - destruct p, q; try done. apply (wf_query _ Hb).
Qed.

Lemma parse_wf s b u : parse s b = Some u -> wf u.
Proof.
  unfold parse. destruct b as [b|]; [|apply parse_abs_wf].
  destruct (parse_abs (list_ascii_of_string b)) as [ub|] eqn:Hb; [|done].
  destruct (strip_scheme _); [apply parse_abs_wf|].
  apply resolve_wf. by apply parse_abs_wf in Hb.
Qed.

Lemma parse_href s b u :
  parse s b = Some u ->
  parse (string_of_list_ascii (href_chars u)) None = Some u.
Proof.
  intros H%parse_wf. unfold parse.
  rewrite list_ascii_of_string_of_list_ascii. by apply parse_abs_href.
Qed.

Lemma parse_href_absolute s b u base :
  parse s b = Some u -> is_Some (parse base None) ->
  parse (string_of_list_ascii (href_chars u)) (Some base) = Some u.
Proof.
  intros Hu%parse_wf [ub Hb]. unfold parse in *. rewrite Hb.
  rewrite list_ascii_of_string_of_list_ascii.
  unfold href_chars at 1. rewrite strip_scheme_href by done.
  by apply parse_abs_href.
Qed.

End MiniURLFacts.

#[export] Instance mini_url_laws : UrlLaws mini_url := {|
  href_reparse := MiniURLFacts.parse_href;
  href_absolute := MiniURLFacts.parse_href_absolute
|}.

(** ** Strings and results *)

(** Closed goals are settled by evaluation. *)
Ltac evaluate :=
  match goal with
  | |- ?l = ?r => first [ exact (@eq_refl _ r <: l = r) | vm_compute; reflexivity ]
  | |- _ <> _ => vm_compute; discriminate
  end.

(** Proves the first conjunct by evaluation and keeps it as [H]. *)
Ltac evaluated H :=
  match goal with
  | |- ?A /\ _ => assert (H : A) by evaluate; split; [exact H|]
  end.

Lemma prefix_append (a b : string) :
  String.prefix a b = true <-> exists rest, b = a +:+ rest.
Proof.
  revert b. induction a as [|c a IH]; intros b.
  - split; [intros _; by exists b | by destruct b].
  - destruct b as [|c' b]; [split; [done | by intros [? ?]]|].
    simpl. destruct (Ascii.ascii_dec c c') as [->|Hne].
    + rewrite IH. split; intros [rest H]; exists rest; [by rewrite H | by injection H].
    + split; [done | intros [rest [= ? ?]]; done].
Qed.

Lemma bind_Ok {A B} (r : Result A) (k : A -> Result B) (b : B) :
  bind r k = Ok b <-> exists a, r = Ok a /\ k a = Ok b.
Proof.
  destruct r as [a|e]; simpl; split; try done.
  - intros H. by exists a.
  - by intros (a' & [= <-] & H).
  - by intros (a' & [=] & _).
Qed.

Section Properties.
Context {api : UrlApi}.

Lemma URL_new_Ok s b u : URL_new s b = Ok u <-> newURL s b = Some u.
Proof.
  unfold URL_new. destruct (newURL s b); split; intros [=]; by subst.
Qed.

Lemma URL_new_Some s b u : newURL s b = Some u -> URL_new s b = Ok u.
Proof. apply URL_new_Ok. Qed.

Lemma outsideScope_false startUrl scope :
  outsideScope startUrl scope = false <-> within startUrl scope.
Proof.
  unfold outsideScope, within.
  rewrite orb_false_iff, !negb_false_iff, String.eqb_eq, prefix_append.
  done.
Qed.

Lemma outsideScope_true startUrl scope :
  outsideScope startUrl scope = true <-> ~ within startUrl scope.
Proof.
  rewrite <- outsideScope_false. by destruct (outsideScope startUrl scope).
Qed.

(** What [checkUrls] answers once the three URLs of lines 35-37 are parsed. *)
Lemma checkUrls_parsed manifest documentUrl startUrl scope doc :
  newURL (ToStringP (manifest !! "start_url")) None = Some startUrl ->
  newURL (ToStringP (manifest !! "scope")) None = Some scope ->
  newURL documentUrl None = Some doc ->
  checkUrls manifest documentUrl =
    if negb (String.eqb (origin startUrl) (origin doc)) then
      Throw (Error "Start and document URL are not in the same origin")
    else if outsideScope startUrl scope then
      Throw (Error "Start URL is not within the scope")
    else Ok manifest.
Proof.
  intros Hs Hsc Hd. unfold checkUrls.
  by rewrite (URL_new_Some _ _ _ Hs), (URL_new_Some _ _ _ Hsc), (URL_new_Some _ _ _ Hd).
Qed.

(** An accepted manifest went through both checks. *)
Lemma checkUrls_Ok manifest documentUrl m :
  checkUrls manifest documentUrl = Ok m ->
  m = manifest /\
  exists startUrl scope doc,
    newURL (ToStringP (manifest !! "start_url")) None = Some startUrl
    /\ newURL (ToStringP (manifest !! "scope")) None = Some scope
    /\ newURL documentUrl None = Some doc
    /\ origin startUrl = origin doc
    /\ within startUrl scope.
Proof.
  unfold checkUrls. intros H.
  apply bind_Ok in H as (s & Hs%URL_new_Ok & H).
  apply bind_Ok in H as (sc & Hsc%URL_new_Ok & H).
  apply bind_Ok in H as (d & Hd%URL_new_Ok & H).
  destruct (String.eqb_spec (origin s) (origin d)) as [Ho|Ho]; [|done].
  simpl in H. destruct (outsideScope s sc) eqn:Hout; [done|].
  injection H as <-. split; [done|].
  exists s, sc, d. by rewrite <- outsideScope_false.
Qed.

Lemma obtainManifest_Ok fetchJson manifestUrl documentUrl m :
  obtainManifest fetchJson manifestUrl documentUrl = Ok m ->
  exists fetched,
    fetchJson manifestUrl = Ok fetched
    /\ resolveUrls fetched documentUrl = Ok m
    /\ checkUrls m documentUrl = Ok m.
Proof.
  unfold obtainManifest. intros H.
  apply bind_Ok in H as (fetched & Hf & H).
  apply bind_Ok in H as (resolved & Hr & H).
  destruct (checkUrls_Ok _ _ _ H) as [-> _]. by exists fetched.
Qed.

Lemma startUrlValidation_parsed manifest value entered scope :
  value <> "" ->
  newURL value None = Some entered ->
  newURL (ToStringP (manifest !! "scope")) None = Some scope ->
  startUrlValidation manifest value false =
    if outsideScope entered scope
    then Ok ("Start URL needs to be within the scope: " +:+ href scope)
    else Ok "".
Proof.
  intros Hv He Hsc. unfold startUrlValidation.
  destruct (String.eqb_spec value "") as [|_]; [done|].
  by rewrite (URL_new_Some _ _ _ He), (URL_new_Some _ _ _ Hsc).
Qed.

(** C2: the scope check, at load (line 40) and on an edit of the start URL
    (lines 217-223), passes exactly when the start URL has the origin of the
    scope and the pathname of the scope is a prefix, as a string, of the
    pathname of the start URL; when it does not pass, loading throws the
    error of line 40 and the input is marked invalid with the message of
    line 220. The prefix is not cut at path segments: a scope path [/a]
    admits the start path [/ab]. Every manifest that [obtainManifest] returns
    has a start URL within its scope. *)
Theorem scope_containment
    (manifest : JsObject) (documentUrl value : string)
    (startUrl scope doc entered : URL)
    (Hstart : newURL (ToStringP (manifest !! "start_url")) None = Some startUrl)
    (Hscope : newURL (ToStringP (manifest !! "scope")) None = Some scope)
    (Hdoc : newURL documentUrl None = Some doc)
    (Horigin : origin startUrl = origin doc)
    (Hvalue : value <> "")
    (Hentered : newURL value None = Some entered) :
  (checkUrls manifest documentUrl = Ok manifest <-> within startUrl scope)
  /\ (~ within startUrl scope ->
      checkUrls manifest documentUrl = Throw (Error "Start URL is not within the scope"))
  /\ (startUrlValidation manifest value false = Ok "" <-> within entered scope)
  /\ (~ within entered scope ->
      startUrlValidation manifest value false
      = Ok ("Start URL needs to be within the scope: " +:+ href scope))
  /\ (origin entered = origin scope -> pathname scope = "/a" -> pathname entered = "/ab" ->
      startUrlValidation manifest value false = Ok "")
  /\ (forall fetchJson manifestUrl documentUrl' m,
        obtainManifest fetchJson manifestUrl documentUrl' = Ok m ->
        exists s sc,
          newURL (ToStringP (m !! "start_url")) None = Some s
          /\ newURL (ToStringP (m !! "scope")) None = Some sc
          /\ within s sc).
Proof.
  rewrite (checkUrls_parsed _ _ _ _ _ Hstart Hscope Hdoc).
  rewrite (startUrlValidation_parsed _ _ _ _ Hvalue Hentered Hscope).
  rewrite Horigin, String.eqb_refl. simpl.
  rewrite <- !outsideScope_true, <- !outsideScope_false.
  repeat split.
  - by destruct (outsideScope startUrl scope).
  - by intros ->.
  - by intros ->.
  - by destruct (outsideScope entered scope).
  - by intros ->.
  - by intros ->.
  - intros Ho Hp He. unfold outsideScope. by rewrite Ho, Hp, He, String.eqb_refl.
  - intros fetchJson manifestUrl documentUrl' m Hm.
    apply obtainManifest_Ok in Hm as (_ & _ & _ & Hc).
    apply checkUrls_Ok in Hc as (_ & s & sc & d & Hs & Hsc & _ & _ & Hw).
    by exists s, sc.
Qed.

(** The manifest that [resolveUrls] returns. *)
Lemma resolveUrls_Ok manifest documentUrl m :
  resolveUrls manifest documentUrl = Ok m ->
  exists a b,
    m = <["scope" := JStr b]> (<["start_url" := JStr a]> manifest)
    /\ (if truthy (manifest !! "start_url")
        then exists u, newURL (ToStringP (manifest !! "start_url")) (Some documentUrl) = Some u
                       /\ a = href u
        else a = documentUrl)
    /\ (if truthy (manifest !! "scope")
        then exists u, newURL (ToStringP (manifest !! "scope")) (Some documentUrl) = Some u
                       /\ b = href u
        else exists u, newURL "." (Some a) = Some u /\ b = href u).
Proof.
  unfold resolveUrls. intros H.
  apply bind_Ok in H as (m1 & H1 & H).
  assert (exists a, m1 = <["start_url" := JStr a]> manifest
            /\ (if truthy (manifest !! "start_url")
                then exists u, newURL (ToStringP (manifest !! "start_url")) (Some documentUrl)
                               = Some u /\ a = href u
                else a = documentUrl)) as (a & -> & Ha).
  { destruct (truthy (manifest !! "start_url")).
    - apply bind_Ok in H1 as (u & Hu%URL_new_Ok & [= <-]). exists (href u). eauto.
    - injection H1 as <-. by exists documentUrl. }
  rewrite lookup_insert_ne in H by done.
  rewrite lookup_insert_eq in H. simpl in H.
  exists a. destruct (truthy (manifest !! "scope")).
  - apply bind_Ok in H as (u & Hu%URL_new_Ok & [= <-]). exists (href u). eauto.
  - apply bind_Ok in H as (u & Hu%URL_new_Ok & [= <-]). exists (href u). eauto.
Qed.

(** C10: the manifest that [obtainManifest] returns is the fetched object
    with [start_url] and [scope] overwritten, each by a string that
    [new URL] parses without a base; every other property, and so [name],
    [short_name], [description], [categories] and [keywords], is as it was
    fetched. *)
Theorem only_urls_rewritten
    (fetchJson : string -> Result JsObject) (manifestUrl documentUrl : string)
    (fetched m : JsObject)
    (Hfetch : fetchJson manifestUrl = Ok fetched)
    (Hm : obtainManifest fetchJson manifestUrl documentUrl = Ok m) :
  (exists a b,
      m = <["scope" := JStr b]> (<["start_url" := JStr a]> fetched)
      /\ is_Some (newURL a None) /\ is_Some (newURL b None))
  /\ (forall k, k <> "start_url" -> k <> "scope" -> m !! k = fetched !! k)
  /\ m !! "name" = fetched !! "name"
  /\ m !! "short_name" = fetched !! "short_name"
  /\ m !! "description" = fetched !! "description"
  /\ m !! "categories" = fetched !! "categories"
  /\ m !! "keywords" = fetched !! "keywords".
Proof.
  apply obtainManifest_Ok in Hm as (fetched' & Hf & Hr & Hc).
  rewrite Hfetch in Hf. injection Hf as <-.
  apply resolveUrls_Ok in Hr as (a & b & -> & _ & _).
  apply checkUrls_Ok in Hc as (_ & s & sc & _ & Hs & Hsc & _).
  rewrite lookup_insert_ne, lookup_insert_eq in Hs by done.
  rewrite lookup_insert_eq in Hsc. simpl in Hs, Hsc.
  assert (Hother : forall k : string, k <> "start_url" -> k <> "scope" ->
            (<["scope" := JStr b]> (<["start_url" := JStr a]> fetched) : JsObject) !! k
            = fetched !! k).
  { intros k H1 H2. by rewrite !lookup_insert_ne. }
  split; [exists a, b; by rewrite Hs, Hsc|].
  repeat split; by apply Hother.
Qed.

Section WithLaws.
Context {laws : UrlLaws api}.

Lemma resolved_scope_parses manifest documentUrl m :
  resolveUrls manifest documentUrl = Ok m ->
  exists u, m !! "scope" = Some (JStr (href u)) /\ newURL (href u) None = Some u.
Proof.
  intros (a & b & -> & _ & Hb)%resolveUrls_Ok.
  rewrite lookup_insert_eq.
  destruct (truthy (manifest !! "scope")); destruct Hb as (u & Hu & ->);
    exists u; split; try done; by eapply href_reparse.
Qed.

(** C4: when the start URL that the resolution produced has another origin
    than the document URL, [obtainManifest] throws the error of line 39,
    whatever the scope is (the scope check of line 40 comes after it). The
    validation of an edited start URL (lines 200-227) has no such check: its
    only messages are those of lines 211 and 220, and for a loaded manifest
    it is the scope check, with its message, that refuses an entered URL of
    another origin than the document. *)
Theorem origin_binding
    (fetchJson : string -> Result JsObject) (manifestUrl documentUrl : string)
    (fetched resolved : JsObject) (startUrl doc : URL)
    (Hfetch : fetchJson manifestUrl = Ok fetched)
    (Hresolved : resolveUrls fetched documentUrl = Ok resolved)
    (Hstart : newURL (ToStringP (resolved !! "start_url")) None = Some startUrl)
    (Hdoc : newURL documentUrl None = Some doc)
    (Hdiff : origin startUrl <> origin doc) :
  obtainManifest fetchJson manifestUrl documentUrl
  = Throw (Error "Start and document URL are not in the same origin")
  /\ (forall manifest value typeMismatch,
        startUrlValidation manifest value typeMismatch = Ok ""
        \/ startUrlValidation manifest value typeMismatch
           = Ok "Start URL needs to be a valid URL"
        \/ (exists scope,
              startUrlValidation manifest value typeMismatch
              = Ok ("Start URL needs to be within the scope: " +:+ href scope))
        \/ startUrlValidation manifest value typeMismatch = Throw (TypeError "invalid URL"))
  /\ (forall fetchJson' manifestUrl' m value entered,
        obtainManifest fetchJson' manifestUrl' documentUrl = Ok m ->
        value <> "" ->
        newURL value None = Some entered ->
        origin entered <> origin doc ->
        exists scope,
          startUrlValidation m value false
          = Ok ("Start URL needs to be within the scope: " +:+ href scope)).
Proof.
  split; [|split].
  - unfold obtainManifest. rewrite Hfetch. simpl. rewrite Hresolved. simpl.
    destruct (resolved_scope_parses _ _ _ Hresolved) as (u & Hsc & Hu).
    rewrite (checkUrls_parsed _ _ startUrl u doc); [|done|by rewrite Hsc|done].
    by destruct (String.eqb_spec (origin startUrl) (origin doc)).
  - intros manifest value typeMismatch. unfold startUrlValidation.
    destruct (String.eqb value ""); [by left|].
    destruct typeMismatch; [by right; left|].
    unfold URL_new.
    destruct (newURL value None) as [entered|]; [|by right; right; right].
    destruct (newURL (ToStringP (manifest !! "scope")) None) as [scope|];
      [|by right; right; right].
    simpl. destruct (outsideScope entered scope); [|by left].
    right; right; left. by exists scope.
  - intros fetchJson' manifestUrl' m value entered Hm Hv He Ho.
    apply obtainManifest_Ok in Hm as (_ & _ & _ & Hc).
    apply checkUrls_Ok in Hc as (_ & s & sc & d & _ & Hsc & Hd & Hsd & Hsame & _).
    rewrite Hdoc in Hd. injection Hd as <-.
    exists sc. rewrite (startUrlValidation_parsed _ _ _ _ Hv He Hsc).
    unfold outsideScope.
    destruct (String.eqb_spec (origin entered) (origin sc)) as [Heq|_]; [|done].
    destruct Ho. congruence.
Qed.

(** Resolving again a manifest that was resolved from a manifest without
    [start_url] and [scope] changes nothing, when the document URL is a
    serialized URL. *)
Lemma resolveUrls_again manifest documentUrl m doc :
  manifest !! "start_url" = None ->
  manifest !! "scope" = None ->
  resolveUrls manifest documentUrl = Ok m ->
  newURL documentUrl None = Some doc ->
  href doc = documentUrl ->
  resolveUrls m documentUrl = Ok m.
Proof.
  intros Hs Hsc Hr Hd Hhref.
  apply resolveUrls_Ok in Hr as (a & b & -> & Ha & Hb).
  rewrite Hs in Ha. rewrite Hsc in Hb. simpl in Ha, Hb. subst a.
  destruct Hb as (u & Hu & ->).
  assert (Hdd : newURL documentUrl (Some documentUrl) = Some doc).
  { rewrite <- Hhref at 1. apply (href_absolute documentUrl None); [done | by exists doc]. }
  assert (Huu : newURL (href u) (Some documentUrl) = Some u).
  { eapply href_absolute; [exact Hu | by exists doc]. }
  set (m := <["scope" := JStr (href u)]> (<["start_url" := JStr documentUrl]> manifest)).
  assert (Hm1 : m !! "start_url" = Some (JStr documentUrl)).
  { unfold m. by rewrite lookup_insert_ne, lookup_insert_eq. }
  assert (Hm2 : m !! "scope" = Some (JStr (href u))).
  { unfold m. by rewrite lookup_insert_eq. }
  assert (Hfix1 : <["start_url" := JStr documentUrl]> m = m) by (by apply insert_id).
  assert (Hfix2 : <["scope" := JStr (href u)]> m = m) by (by apply insert_id).
  unfold resolveUrls. rewrite Hm1. simpl.
  assert (Hfirst :
    (if negb (String.eqb documentUrl "")
     then u0 <- URL_new documentUrl (Some documentUrl) ;;
          Ok (<["start_url" := JStr (href u0)]> m)
     else Ok (<["start_url" := JStr documentUrl]> m)) = Ok m).
  { destruct (negb (String.eqb documentUrl "")).
    - rewrite (URL_new_Some _ _ _ Hdd). simpl. by rewrite Hhref, Hfix1.
    - by rewrite Hfix1. }
  rewrite Hfirst. simpl. rewrite Hm1, Hm2. simpl.
  destruct (negb (String.eqb (href u) "")).
  - rewrite (URL_new_Some _ _ _ Huu). simpl. by rewrite Hfix2.
  - rewrite (URL_new_Some _ _ _ Hu). simpl. by rewrite Hfix2.
Qed.

(** C5, as amended: for a manifest without [start_url] and [scope] that
    [obtainManifest] accepts, the resolved [start_url] is the document URL
    and the resolved [scope] is [.] resolved against the resolved
    [start_url] (it is the directory of the document URL, not the document
    URL itself); running [obtainManifest] on the returned manifest returns
    it unchanged, for a document URL in serialized form. *)
Theorem defaults_of_absent_urls
    (fetchJson : string -> Result JsObject) (manifestUrl documentUrl : string)
    (fetched m : JsObject)
    (Hfetch : fetchJson manifestUrl = Ok fetched)
    (Hstart : fetched !! "start_url" = None)
    (Hscope : fetched !! "scope" = None)
    (Hm : obtainManifest fetchJson manifestUrl documentUrl = Ok m) :
  m !! "start_url" = Some (JStr documentUrl)
  /\ (exists u, newURL "." (Some (ToStringP (m !! "start_url"))) = Some u
                /\ m !! "scope" = Some (JStr (href u)))
  /\ ((exists doc, newURL documentUrl None = Some doc /\ href doc = documentUrl) ->
      obtainManifest (fun _ => Ok m) manifestUrl documentUrl = Ok m).
Proof.
  apply obtainManifest_Ok in Hm as (fetched' & Hf & Hr & Hc).
  rewrite Hfetch in Hf. injection Hf as <-.
  pose proof Hr as Hr'.
  apply resolveUrls_Ok in Hr' as (a & b & Heq & Ha & Hb).
  rewrite Hstart in Ha. rewrite Hscope in Hb. simpl in Ha, Hb. subst a.
  destruct Hb as (u & Hu & ->).
  assert (Hm1 : m !! "start_url" = Some (JStr documentUrl)).
  { rewrite Heq. by rewrite lookup_insert_ne, lookup_insert_eq. }
  split; [done|]. split.
  - exists u. rewrite Hm1. simpl. split; [done|].
    rewrite Heq. by rewrite lookup_insert_eq.
  - intros (doc & Hd & Hhref). unfold obtainManifest. simpl.
    rewrite (resolveUrls_again fetched documentUrl m doc) by done.
    simpl. done.
Qed.

End WithLaws.

End Properties.

(** ** The native-messaging protocol *)

Lemma strictEqStr_spec (p : JsProp) (s : string) :
  strictEqStr p s = true <-> p = Some (JStr s).
Proof.
  destruct p as [[| | |t| |]|]; simpl; try (split; [done | by intros [=]]).
  rewrite String.eqb_eq. split; [by intros -> | by intros [= ->]].
Qed.

Lemma strictEqStr_false (p : JsProp) (s : string) :
  strictEqStr p s = false <-> p <> Some (JStr s).
Proof.
  rewrite <- strictEqStr_spec. by destruct (strictEqStr p s).
Qed.

(** C3, as amended: whatever tag the caller expects, a reply of type
    ["Error"] makes the call throw an error whose message is the data of the
    reply (the data itself when it is a string); a reply of any other type
    than the expected tag, a reply without a type included, makes it throw
    the error that names the received type (["undefined"] without a type);
    the data of the reply is returned only when the type is the expected
    tag. [obtainSiteList] and [obtainProfileList] are this rule at the tags
    ["SiteList"] and ["ProfileList"]. *)
Theorem response_discrimination (expected : string) (response : JsObject) :
  (response !! "type" = Some (JStr "Error") ->
   checkResponse expected response = Throw (newError (response !! "data"))
   /\ forall data, response !! "data" = Some (JStr data) ->
                   checkResponse expected response = Throw (Error data))
  /\ (response !! "type" <> Some (JStr "Error") ->
      response !! "type" <> Some (JStr expected) ->
      checkResponse expected response
      = Throw (Error ("Received invalid response type: " +:+ ToStringP (response !! "type"))))
  /\ (response !! "type" = None ->
      checkResponse expected response
      = Throw (Error "Received invalid response type: undefined"))
  /\ (response !! "type" <> Some (JStr "Error") ->
      response !! "type" = Some (JStr expected) ->
      checkResponse expected response = Ok (response !! "data"))
  /\ (forall peer,
        peer {| cmd := "GetSiteList"; params := None |} = Replied response ->
        obtainSiteList peer = checkResponse "SiteList" response)
  /\ (forall peer,
        peer {| cmd := "GetProfileList"; params := None |} = Replied response ->
        obtainProfileList peer = checkResponse "ProfileList" response).
Proof.
  unfold checkResponse. repeat split.
  - apply strictEqStr_spec in H. by rewrite H.
  - intros data Hd. apply strictEqStr_spec in H. by rewrite H, Hd.
  - intros He Hx. apply strictEqStr_false in He, Hx. by rewrite He, Hx.
  - intros Hn. by rewrite Hn.
  - intros He Hx. apply strictEqStr_false in He. apply strictEqStr_spec in Hx.
    by rewrite He, Hx.
  - intros peer Hp. unfold obtainSiteList. by rewrite Hp.
  - intros peer Hp. unfold obtainProfileList. by rewrite Hp.
Qed.

Lemma response_discrimination_witness :
  checkResponse "SiteList" (<["type" := JStr "Error"]> (<["data" := JStr "boom"]> ∅))
  = Throw (Error "boom")
  /\ checkResponse "SiteList" (<["type" := JStr "Unexpected"]> (<["data" := JObj ∅]> ∅))
     = Throw (Error "Received invalid response type: Unexpected")
  /\ checkResponse "SiteList" (<["type" := JStr "SiteList"]> (<["data" := JObj ∅]> ∅))
     = Ok (Some (JObj ∅)).
Proof.
  split; [|split].
  - refine (proj2 (proj1 (response_discrimination "SiteList"
                     (<["type" := JStr "Error"]> (<["data" := JStr "boom"]> ∅))) _)
                "boom" _);
      reflexivity.
  - refine (proj1 (proj2 (response_discrimination "SiteList"
                     (<["type" := JStr "Unexpected"]> (<["data" := JObj ∅]> ∅)))) _ _);
      vm_compute; discriminate.
  - refine (proj1 (proj2 (proj2 (proj2 (response_discrimination "SiteList"
                     (<["type" := JStr "SiteList"]> (<["data" := JObj ∅]> ∅)))))) _ _);
      [vm_compute; discriminate | reflexivity].
Defined.

(** A reply without a type is present in no case of the rule as the
    specification words it, which returns its data; the call throws. *)
Lemma untyped_response_is_refused :
  let response : JsObject := <["data" := JObj ∅]> ∅ in
  response !! "type" = None
  /\ obtainSiteList (fun _ => Replied response)
     = Throw (Error "Received invalid response type: undefined")
  /\ obtainSiteList (fun _ => Replied response) <> Ok (response !! "data").
Proof. repeat split; evaluate. Qed.

(** ** Submission *)

Ltac run_handler :=
  unfold submit_onclick, new_profile_create_onclick, profiles_onchange,
    new_profile_cancel_onclick, user_selects,
    andThen, try_catch, sendNativeMessage, read, update, lift, ret;
  cbn beta iota.

Lemma submit_onclick_failed manifestUrl documentUrl manifest reply ui e categories keywords :
  checkValidity (form ui) = true ->
  overrideOf (web_app_categories (form ui)) (manifest !! "categories") = Ok categories ->
  overrideOf (web_app_keywords (form ui)) (manifest !! "keywords") = Ok keywords ->
  awaitReply "SiteInstalled" reply = Throw e ->
  exists request,
    submit_onclick manifestUrl documentUrl manifest (fun _ => reply) ui
    = (Ok tt,
       set_error_toast_shown true
         (set_error_text (message_of e)
            (set_sent (sent ui ++ [request])
               (set_submit {| disabled := true; innerText := "Installing web app..." |} ui)))).
Proof.
  intros Hvalid Hc Hk Hfail. eexists.
  run_handler. rewrite Hvalid. simpl. rewrite Hc, Hk. cbn beta iota.
  destruct reply as [e'|response]; simpl in Hfail.
  - injection Hfail as ->. reflexivity.
  - rewrite Hfail. reflexivity.
Qed.

(** C7, as amended: when the [InstallSite] call fails (the promise is
    rejected, the reply has type ["Error"] or a type other than
    ["SiteInstalled"]), the handler ends normally with the message of the
    error as the error text and the error notification shown; the submit
    control is left disabled under its label of line 243, no closing of the
    popup is scheduled, and a further click on the control does nothing. *)
Theorem failed_install_keeps_submit_disabled
    (manifestUrl documentUrl : string) (manifest : JsObject) (reply : NativeReply)
    (ui : UI) (e : JsError) (categories keywords : list string)
    (Hvalid : checkValidity (form ui) = true)
    (Hcategories : overrideOf (web_app_categories (form ui)) (manifest !! "categories")
                   = Ok categories)
    (Hkeywords : overrideOf (web_app_keywords (form ui)) (manifest !! "keywords") = Ok keywords)
    (Hfail : awaitReply "SiteInstalled" reply = Throw e) :
  let after := submit_onclick manifestUrl documentUrl manifest (fun _ => reply) ui in
  fst after = Ok tt
  /\ error_text (snd after) = message_of e
  /\ error_toast_shown (snd after) = true
  /\ submit (snd after) = {| disabled := true; innerText := "Installing web app..." |}
  /\ close_scheduled (snd after) = close_scheduled ui
  /\ forall reply',
       step manifestUrl documentUrl manifest (ClickSubmit reply') (snd after) = snd after.
Proof.
  destruct (submit_onclick_failed manifestUrl documentUrl manifest reply ui e
              categories keywords Hvalid Hcategories Hkeywords Hfail) as (request & ->).
  by repeat split.
Qed.

Lemma failed_install_keeps_submit_disabled_witness :
  let ui := initial_ui [{| text := "Default"; value_attr := Some "P1" |}] "" [] [] in
  let manifest : JsObject := <["categories" := JArr []]> (<["keywords" := JArr []]> ∅) in
  let after :=
    submit_onclick "https://x.test/manifest.json" "https://x.test/" manifest
      (fun _ => reply_of "Error" (JStr "boom")) ui in
  checkValidity (form ui) = true
  /\ awaitReply "SiteInstalled" (reply_of "Error" (JStr "boom")) = Throw (Error "boom")
  /\ error_text (snd after) = "boom"
  /\ submit (snd after) = {| disabled := true; innerText := "Installing web app..." |}.
Proof.
  split; [reflexivity|]. split; [reflexivity|].
  pose proof (failed_install_keeps_submit_disabled
                "https://x.test/manifest.json" "https://x.test/"
                (<["categories" := JArr []]> (<["keywords" := JArr []]> ∅))
                (reply_of "Error" (JStr "boom"))
                (initial_ui [{| text := "Default"; value_attr := Some "P1" |}] "" [] [])
                (Error "boom") [] []
                eq_refl eq_refl eq_refl eq_refl) as (_ & Htext & _ & Hsubmit & _).
  split; [exact Htext | exact Hsubmit].
Defined.

(** After a reply of type ["Error"] the submit control is disabled, not
    enabled again. *)
Lemma submit_not_enabled_after_error :
  let ui := initial_ui [{| text := "Default"; value_attr := Some "P1" |}] "" [] [] in
  let manifest : JsObject := <["categories" := JArr []]> (<["keywords" := JArr []]> ∅) in
  let after :=
    step "https://x.test/manifest.json" "https://x.test/" manifest
      (ClickSubmit (reply_of "Error" (JStr "boom"))) ui in
  disabled (submit ui) = false
  /\ error_text after = "boom"
  /\ error_toast_shown after = true
  /\ disabled (submit after) <> false.
Proof. repeat split; evaluate. Qed.

Lemma concat_JStr (user : list string) :
  ToString (JArr (JStr <$> user)) = arrayToString user.
Proof.
  unfold arrayToString. cbn [ToString]. f_equal.
  induction user as [|s user IH]; [done|].
  cbn [fmap list_fmap map ToString]. f_equal. exact IH.
Qed.

Lemma overrideOf_same (user : list string) :
  overrideOf user (Some (JArr (JStr <$> user))) = Ok [].
Proof.
  unfold overrideOf, callToString. cbn [bind].
  by rewrite concat_JStr, String.eqb_refl.
Qed.

(** C6 fails on the code: the selection is compared with the list of the
    manifest through [toString], which joins the items with commas. A
    selection equal to the list of the manifest gives an empty override, but
    so does the selection [a], [b] against the manifest list of the single
    item [a,b]: the [InstallSite] message then carries no categories. *)
Theorem override_compares_joined_lists :
  (forall user, overrideOf user (Some (JArr (JStr <$> user))) = Ok [])
  /\ overrideOf ["a"; "b"] (Some (JArr [JStr "a,b"])) = Ok []
  /\ let manifest : JsObject :=
       <["categories" := JArr [JStr "a,b"]]> (<["keywords" := JArr []]> ∅) in
     let ui := initial_ui [{| text := "Default"; value_attr := Some "P1" |}] "" ["a"; "b"] [] in
     let after :=
       step "https://x.test/manifest.json" "https://x.test/" manifest
         (ClickSubmit (reply_of "SiteInstalled" JNull)) ui in
     let p := installParams "https://x.test/manifest.json" "https://x.test/"
                None (Some "P1") None None [] [] in
     sent after = [{| cmd := "InstallSite"; params := Some p |}]
     /\ p !! "categories" = Some (JArr [])
     /\ p !! "keywords" = Some (JArr []).
Proof.
  split; [apply overrideOf_same|]. repeat split; evaluate.
Qed.

(** C9 fails on the code: with [categories] or [keywords] missing from the
    manifest, [submit.onclick] throws a [TypeError] at line 255 or 259, after
    it has disabled the submit control and before any message is sent; the
    seeding of the tag inputs (lines 110 and 113) does take a missing list
    for the empty one. *)
Theorem submit_throws_without_lists
    (manifestUrl documentUrl : string) (manifest : JsObject)
    (peer : NativeRequest -> NativeReply) (ui : UI)
    (Hvalid : checkValidity (form ui) = true)
    (Habsent : manifest !! "categories" = None \/ manifest !! "keywords" = None) :
  let after := submit_onclick manifestUrl documentUrl manifest peer ui in
  (exists message, fst after = Throw (TypeError message))
  /\ sent (snd after) = sent ui
  /\ submit (snd after) = {| disabled := true; innerText := "Installing web app..." |}
  /\ orEmptyArray None = JArr [].
Proof.
  run_handler. rewrite Hvalid. simpl.
  destruct (overrideOf (web_app_categories (form ui)) (manifest !! "categories"))
    as [categories|e] eqn:Hc.
  - destruct Habsent as [Ha|Ha]; [by rewrite Ha in Hc|].
    rewrite Ha. simpl. repeat split. by eexists.
  - unfold overrideOf, callToString in Hc.
    destruct (manifest !! "categories") as [[]|]; simpl in Hc; try done;
      injection Hc as <-; simpl; repeat split; by eexists.
Qed.

Lemma submit_throws_without_lists_witness :
  let ui := initial_ui [{| text := "Default"; value_attr := Some "P1" |}] "" [] [] in
  let after :=
    submit_onclick "https://x.test/manifest.json" "https://x.test/" ∅
      (fun _ => reply_of "SiteInstalled" JNull) ui in
  checkValidity (form ui) = true
  /\ (∅ : JsObject) !! "categories" = None
  /\ web_app_categories (form ui) = []
  /\ (exists message, fst after = Throw (TypeError message))
  /\ sent (snd after) = [].
Proof.
  split; [reflexivity|]. split; [reflexivity|]. split; [reflexivity|].
  pose proof (submit_throws_without_lists
                "https://x.test/manifest.json" "https://x.test/" ∅
                (fun _ => reply_of "SiteInstalled" JNull)
                (initial_ui [{| text := "Default"; value_attr := Some "P1" |}] "" [] [])
                eq_refl (or_introl eq_refl)) as (Hthrow & Hsent & _).
  split; [exact Hthrow | exact Hsent].
Defined.

(** ** The profile drop-down *)

(** C8 fails on the code: [new-profile-create] appends the option of the
    new profile and selects it, but writes nothing to
    [lastProfileSelection]. With the profile [P1] selected at first and the
    profile [P2] created, the drop-down shows [P2] while the last selection
    is still [P1]; opening the dialog again and cancelling it brings the
    drop-down back to [P1]. *)
Theorem created_profile_is_not_recorded :
  (forall peer ui,
     lastProfileSelection (snd (new_profile_create_onclick peer ui))
     = lastProfileSelection ui)
  /\ let ui :=
       initial_ui [{| text := "Default"; value_attr := Some "P1" |}] "Work" [] [] in
     let created :=
       run "" "" ∅ [UserSelects 1; ClickCreate (reply_of "ProfileCreated" (JStr "P2"))] ui in
     let cancelled := run "" "" ∅ [UserSelects 1; ClickCancel] created in
     select_value (profilesElement ui) = "P1"
     /\ options (profilesElement created)
        = (options (profilesElement ui)
           ++ [{| text := "Work"; value_attr := Some "P2" |}])%list
     /\ select_value (profilesElement created) = "P2"
     /\ lastProfileSelection created = "P1"
     /\ select_value (profilesElement cancelled) = "P1".
Proof.
  split; [|repeat split; evaluate].
  intros peer ui. run_handler.
  destruct (peer _) as [e|response]; [reflexivity|].
  destruct (checkResponse "ProfileCreated" response); reflexivity.
Qed.

(** ** The properties at concrete manifests, with [MiniURL] *)

(** C1 fails on the code: a relative [start_url] is resolved against the
    document URL (line 18), not against the manifest URL as the comment of
    line 15 announces; the manifest URL only serves to fetch the manifest.
    For the manifest at [/static/manifest.json] with [start_url]
    [index.html], opened from the page [/app/page], the resolved start URL is
    [/app/index.html]; against the manifest URL it would be
    [/static/index.html]. *)
Theorem start_url_base_is_document_url :
  (forall (api : UrlApi) fetched manifestUrl manifestUrl' documentUrl,
     obtainManifest (fun _ => Ok fetched) manifestUrl documentUrl
     = obtainManifest (fun _ => Ok fetched) manifestUrl' documentUrl)
  /\ let manifestUrl := "https://x.test/static/manifest.json" in
     let documentUrl := "https://x.test/app/page" in
     let fetched : JsObject := <["start_url" := JStr "index.html"]> ∅ in
     obtainManifest (api := mini_url) (serving manifestUrl fetched) manifestUrl documentUrl
     = Ok (<["scope" := JStr "https://x.test/app/"]>
            (<["start_url" := JStr "https://x.test/app/index.html"]> fetched))
     /\ href <$> newURL (UrlApi := mini_url) "index.html" (Some documentUrl)
        = Some "https://x.test/app/index.html"
     /\ href <$> newURL (UrlApi := mini_url) "index.html" (Some manifestUrl)
        = Some "https://x.test/static/index.html".
Proof. split; [reflexivity | repeat split; evaluate]. Qed.

(** For a manifest without [start_url] and [scope] opened from [/app/page],
    the resolved scope is [/app/], which is not the document URL. *)
Lemma default_scope_is_not_document_url :
  let manifestUrl := "https://x.test/manifest.json" in
  let documentUrl := "https://x.test/app/page" in
  let m : JsObject :=
    <["scope" := JStr "https://x.test/app/"]> (<["start_url" := JStr documentUrl]> ∅) in
  obtainManifest (api := mini_url) (serving manifestUrl ∅) manifestUrl documentUrl = Ok m
  /\ m !! "start_url" = Some (JStr documentUrl)
  /\ m !! "scope" <> Some (JStr documentUrl).
Proof. repeat split; evaluate. Qed.

Lemma scope_containment_witness :
  let manifest : JsObject :=
    <["start_url" := JStr "https://x.test/app"]>
      (<["scope" := JStr "https://x.test/app"]> ∅) in
  let documentUrl := "https://x.test/app/page" in
  let value := "https://x.test/application" in
  exists startUrl scope doc entered : URL (UrlApi := mini_url),
    newURL (ToStringP (manifest !! "start_url")) None = Some startUrl
    /\ newURL (ToStringP (manifest !! "scope")) None = Some scope
    /\ newURL documentUrl None = Some doc
    /\ origin startUrl = origin doc
    /\ value <> ""
    /\ newURL value None = Some entered
    /\ (checkUrls manifest documentUrl = Ok manifest <-> within startUrl scope)
    /\ (startUrlValidation manifest value false = Ok "" <-> within entered scope).
Proof.
  intros manifest documentUrl value.
  do 4 eexists.
  evaluated H1. evaluated H2. evaluated H3. evaluated H4. evaluated H5. evaluated H6.
  pose proof (scope_containment (api := mini_url) manifest documentUrl value
                _ _ _ _ H1 H2 H3 H4 H5 H6) as (Hload & _ & Hedit & _).
  split; [exact Hload | exact Hedit].
Defined.

Lemma origin_binding_witness :
  let manifestUrl := "https://x.test/manifest.json" in
  let documentUrl := "https://x.test/app/page" in
  let fetched : JsObject := <["start_url" := JStr "https://y.test/app"]> ∅ in
  let resolved : JsObject :=
    <["scope" := JStr "https://y.test/"]>
      (<["start_url" := JStr "https://y.test/app"]> fetched) in
  exists startUrl doc : URL (UrlApi := mini_url),
    serving manifestUrl fetched manifestUrl = Ok fetched
    /\ resolveUrls fetched documentUrl = Ok resolved
    /\ newURL (ToStringP (resolved !! "start_url")) None = Some startUrl
    /\ newURL documentUrl None = Some doc
    /\ origin startUrl <> origin doc
    /\ obtainManifest (serving manifestUrl fetched) manifestUrl documentUrl
       = Throw (Error "Start and document URL are not in the same origin").
Proof.
  intros manifestUrl documentUrl fetched resolved.
  do 2 eexists.
  evaluated H1. evaluated H2. evaluated H3. evaluated H4. evaluated H5.
  exact (proj1 (origin_binding (api := mini_url) (serving manifestUrl fetched)
                  manifestUrl documentUrl fetched resolved _ _ H1 H2 H3 H4 H5)).
Defined.

Lemma defaults_of_absent_urls_witness :
  let manifestUrl := "https://x.test/manifest.json" in
  let documentUrl := "https://x.test/app/page" in
  let m : JsObject :=
    <["scope" := JStr "https://x.test/app/"]> (<["start_url" := JStr documentUrl]> ∅) in
  serving manifestUrl ∅ manifestUrl = Ok ∅
  /\ (∅ : JsObject) !! "start_url" = None
  /\ (∅ : JsObject) !! "scope" = None
  /\ obtainManifest (api := mini_url) (serving manifestUrl ∅) manifestUrl documentUrl = Ok m
  /\ (exists doc, newURL documentUrl None = Some doc /\ href doc = documentUrl)
  /\ m !! "start_url" = Some (JStr documentUrl)
  /\ obtainManifest (api := mini_url) (fun _ => Ok m) manifestUrl documentUrl = Ok m.
Proof.
  intros manifestUrl documentUrl m.
  evaluated H1. evaluated H2. evaluated H3. evaluated H4.
  match goal with
  | |- ?A /\ _ =>
      assert (H5 : A) by (eexists; split; evaluate); split; [exact H5|]
  end.
  pose proof (defaults_of_absent_urls (api := mini_url)
                (serving manifestUrl ∅) manifestUrl documentUrl ∅ m
                H1 H2 H3 H4) as (Hstart & _ & Hagain).
  split; [exact Hstart | exact (Hagain H5)].
Defined.

Lemma only_urls_rewritten_witness :
  let manifestUrl := "https://x.test/manifest.json" in
  let documentUrl := "https://x.test/app/page" in
  let fetched : JsObject :=
    <["name" := JStr "App"]> (<["start_url" := JStr "/app"]> (<["scope" := JStr "/app"]>
      (<["categories" := JArr [JStr "news"]]> ∅))) in
  let m : JsObject :=
    <["scope" := JStr "https://x.test/app"]>
      (<["start_url" := JStr "https://x.test/app"]> fetched) in
  serving manifestUrl fetched manifestUrl = Ok fetched
  /\ obtainManifest (api := mini_url) (serving manifestUrl fetched) manifestUrl documentUrl
     = Ok m
  /\ m !! "name" = fetched !! "name"
  /\ m !! "categories" = fetched !! "categories".
Proof.
  intros manifestUrl documentUrl fetched m.
  evaluated H1. evaluated H2.
  pose proof (only_urls_rewritten (api := mini_url)
                (serving manifestUrl fetched) manifestUrl documentUrl fetched m
                H1 H2) as (_ & _ & Hname & _ & _ & Hcategories & _).
  split; [exact Hname | exact Hcategories].
Defined.

(** * Further properties of [install.js] *)

(** ** The validation of the name *)

Lemma mapResult_Ok {A B} (f : A -> Result B) (l : list A) (ys : list B) :
  mapResult f l = Ok ys <-> Forall2 (fun x y => f x = Ok y) l ys.
Proof.
  revert ys. induction l as [|x l IH]; intros ys; simpl.
  - split; [intros [= <-]; constructor | by inversion 1].
  - rewrite bind_Ok. split.
    + intros (y & Hy & H). apply bind_Ok in H as (ys' & Hys & [= <-]).
      constructor; [done | by apply IH].
    + inversion 1 as [|? y ? ys' Hy Hys]; subst. exists y. split; [done|].
      apply IH in Hys. by rewrite Hys.
Qed.

Lemma mapResult_Throw {A B} (f : A -> Result B) (l : list A) x e :
  x ∈ l -> f x = Throw e ->
  exists x' e', x' ∈ l /\ f x' = Throw e' /\ mapResult f l = Throw e'.
Proof.
  intros Hx Hf. induction l as [|y l IH]; [by apply elem_of_nil in Hx|].
  simpl. destruct (f y) as [b|e0] eqn:Hy.
  - apply elem_of_cons in Hx as [->|Hx]; [congruence|].
    destruct (IH Hx) as (x' & e' & Hin & Hx' & ->).
    exists x', e'. repeat split; [by right | done].
  - exists y, e0. repeat split; [by left | done].
Qed.

Lemma mapResult_total {A B} (f : A -> Result B) (l : list A) :
  (forall x, x ∈ l -> exists y, f x = Ok y) -> exists ys, mapResult f l = Ok ys.
Proof.
  induction l as [|x l IH]; intros H; simpl; [by eexists|].
  destruct (H x) as [y ->]; [by left|].
  destruct IH as [ys ->]; [intros z Hz; apply H; by right|]. by eexists.
Qed.

Lemma values_of_map (fields : JsObject) (v : JsValue) :
  v ∈ (snd <$> map_to_list fields) <-> exists k, fields !! k = Some v.
Proof.
  rewrite list_elem_of_fmap. split.
  - intros ([k v'] & -> & H%elem_of_map_to_list). by exists k.
  - intros [k H]. exists (k, v). split; [done|]. by apply elem_of_map_to_list.
Qed.

(** X1: for a site list in which every site has a display name (line 183
    does not throw), [nameValidation] marks the input invalid exactly when
    the current name, the value of the input or else its placeholder, is the
    display name of some site; otherwise it marks it valid. *)
Theorem name_collision
    (sites : JsObject) (value placeholder : string)
    (Hsites : forall id site, sites !! id = Some site -> exists name, siteName site = Ok name) :
  let currentName := if String.eqb value "" then placeholder else value in
  let taken := exists id site,
    sites !! id = Some site /\ siteName site = Ok (Some (JStr currentName)) in
  (taken ->
   nameValidation (Some (JObj sites)) value placeholder
   = Ok "Site name must not be reused from existing web apps")
  /\ (~ taken -> nameValidation (Some (JObj sites)) value placeholder = Ok "").
Proof.
  intros currentName taken. unfold nameValidation. cbn [objectValues bind].
  fold currentName.
  destruct (mapResult_total siteName (snd <$> map_to_list sites)) as [names Hnames].
  { intros site [id Hid]%values_of_map. by eapply Hsites. }
  rewrite Hnames. cbn [bind].
  apply mapResult_Ok in Hnames.
  assert (Hiff : existsb (fun name => strictEqStr name currentName) names = true <-> taken).
  { rewrite existsb_exists. split.
    - intros (name & Hin & Hname%strictEqStr_spec). subst name.
      apply list_elem_of_In in Hin.
      apply list_elem_of_lookup in Hin as [i Hi].
      destruct (Forall2_lookup_r _ _ _ _ _ Hnames Hi) as (site & Hsite & Hf).
      apply list_elem_of_lookup_2, values_of_map in Hsite as [id Hid].
      by exists id, site.
    - intros (id & site & Hid & Hf).
      assert (Hin : site ∈ (snd <$> map_to_list sites)) by (apply values_of_map; eauto).
      apply list_elem_of_lookup in Hin as [i Hi].
      destruct (Forall2_lookup_l _ _ _ _ _ Hnames Hi) as (name & Hname & Hf').
      exists name. split.
      + apply list_elem_of_In. by eapply list_elem_of_lookup_2.
      + apply strictEqStr_spec. congruence. }
  split.
  - intros Ht. apply Hiff in Ht. by rewrite Ht.
  - intros Ht. destruct (existsb _ names) eqn:E; [|done].
    destruct Ht. by apply Hiff.
Qed.

Lemma getProp_throws v k e : getProp v k = Throw e -> exists msg, e = TypeError msg.
Proof. destruct v as [[]|]; simpl; intros [=]; by eexists. Qed.

Lemma siteName_throws site e : siteName site = Throw e -> exists msg, e = TypeError msg.
Proof.
  unfold siteName. intros H.
  repeat match type of H with
         | bind ?r _ = Throw _ =>
             let E := fresh "E" in
             destruct r eqn:E; cbn [bind] in H;
             [|injection H as <-; by eapply getProp_throws]
         | (if ?b then _ else _) = Throw _ => destruct b; [done|]
         end.
  by eapply getProp_throws.
Qed.

(** X2: a site entry without [config], or with an unnamed [config] and no
    [manifest], makes [nameValidation] throw a [TypeError] whatever the
    input holds, so that no validity is set; a site whose [config] carries a
    name needs no [manifest]. *)
Theorem malformed_site_breaks_name_validation
    (sites site : JsObject) (id value placeholder : string)
    (Hid : sites !! id = Some (JObj site))
    (Hbad : site !! "config" = None
            \/ exists config, site !! "config" = Some (JObj config)
                              /\ truthy (config !! "name") = false
                              /\ site !! "manifest" = None) :
  (exists msg, nameValidation (Some (JObj sites)) value placeholder = Throw (TypeError msg))
  /\ (forall named config,
        named !! "config" = Some (JObj config) ->
        truthy (config !! "name") = true ->
        siteName (JObj named) = Ok (config !! "name")).
Proof.
  split.
  - assert (Hthrow : exists e, siteName (JObj site) = Throw e).
    { unfold siteName. cbn [getProp bind].
      destruct Hbad as [-> | (config & -> & Hfalsy & ->)]; cbn [getProp bind].
      - by eexists.
      - rewrite Hfalsy. cbn [getProp bind]. by eexists. }
    destruct Hthrow as [e He].
    destruct (mapResult_Throw siteName (snd <$> map_to_list sites) (JObj site) e)
      as (site' & e' & _ & He' & Hmap); [apply values_of_map; eauto | done |].
    apply siteName_throws in He' as [msg ->].
    exists msg. unfold nameValidation. cbn [objectValues bind]. by rewrite Hmap.
  - intros named config Hc Ht. unfold siteName. cbn [getProp bind].
    rewrite Hc. cbn [getProp bind]. by rewrite Ht.
Qed.

Section FurtherProperties.
Context {api : UrlApi}.

(** X3: for a manifest that [obtainManifest] returned, the computation of
    the default name (lines 96-99) does not throw: it is the name of the
    manifest when that is truthy, else its short name when that is truthy,
    else the host of its scope, which parses because line 36 parsed it. *)
Theorem default_name_of_loaded_manifest
    (fetchJson : string -> Result JsObject) (manifestUrl documentUrl : string)
    (m : JsObject)
    (Hm : obtainManifest fetchJson manifestUrl documentUrl = Ok m) :
  exists scope,
    newURL (ToStringP (m !! "scope")) None = Some scope
    /\ defaultName m
       = Ok (if truthy (m !! "name") then m !! "name"
             else if truthy (m !! "short_name") then m !! "short_name"
             else Some (JStr (host scope)))
    /\ (truthy (m !! "name") = false -> truthy (m !! "short_name") = false ->
        namePlaceholder m = Ok (host scope)).
Proof.
  apply obtainManifest_Ok in Hm as (_ & _ & _ & Hc).
  apply checkUrls_Ok in Hc as (_ & _ & scope & _ & _ & Hscope & _).
  exists scope. split; [done|].
  unfold namePlaceholder, defaultName.
  destruct (truthy (m !! "name")) eqn:Hn; cbn [negb].
  - rewrite Hn. cbn [negb]. by split.
  - destruct (truthy (m !! "short_name")) eqn:Hs; cbn [negb]; [by split|].
    rewrite (URL_new_Some _ _ _ Hscope). by split.
Qed.

Lemma append_empty (s : string) : s +:+ "" = s.
Proof. induction s as [|c s IH]; [done|]. exact (f_equal (String c) IH). Qed.

Lemma within_refl (u : URL) : within u u.
Proof. split; [done|]. exists "". by rewrite append_empty. Qed.

(** X4: the start URL and the scope of a manifest that [obtainManifest]
    returned both pass [startUrlValidation] when they are entered as the
    start URL, and so does the empty input, whatever the manifest is. *)
Theorem loaded_urls_are_valid_overrides
    (fetchJson : string -> Result JsObject) (manifestUrl documentUrl : string)
    (m : JsObject)
    (Hm : obtainManifest fetchJson manifestUrl documentUrl = Ok m) :
  startUrlValidation m (ToStringP (m !! "start_url")) false = Ok ""
  /\ startUrlValidation m (ToStringP (m !! "scope")) false = Ok ""
  /\ forall manifest typeMismatch, startUrlValidation manifest "" typeMismatch = Ok "".
Proof.
  apply obtainManifest_Ok in Hm as (_ & _ & _ & Hc).
  apply checkUrls_Ok in Hc as (_ & s & sc & _ & Hs & Hsc & _ & _ & Hw).
  split; [|split; [|done]].
  - destruct (String.eqb_spec (ToStringP (m !! "start_url")) "") as [He|Hne].
    + unfold startUrlValidation. by rewrite He.
    + rewrite (startUrlValidation_parsed _ _ _ _ Hne Hs Hsc).
      apply outsideScope_false in Hw. by rewrite Hw.
  - destruct (String.eqb_spec (ToStringP (m !! "scope")) "") as [He|Hne].
    + unfold startUrlValidation. by rewrite He.
    + rewrite (startUrlValidation_parsed _ _ _ _ Hne Hsc Hsc).
      pose proof (within_refl sc) as Hr. apply outsideScope_false in Hr. by rewrite Hr.
Qed.

(** X5: in a manifest that [obtainManifest] returned, the start URL, the
    scope and the document URL have one and the same origin. *)
Theorem loaded_manifest_has_one_origin
    (fetchJson : string -> Result JsObject) (manifestUrl documentUrl : string)
    (m : JsObject)
    (Hm : obtainManifest fetchJson manifestUrl documentUrl = Ok m) :
  exists startUrl scope doc,
    newURL (ToStringP (m !! "start_url")) None = Some startUrl
    /\ newURL (ToStringP (m !! "scope")) None = Some scope
    /\ newURL documentUrl None = Some doc
    /\ origin startUrl = origin doc
    /\ origin scope = origin doc.
Proof.
  apply obtainManifest_Ok in Hm as (_ & _ & _ & Hc).
  apply checkUrls_Ok in Hc as (_ & s & sc & d & Hs & Hsc & Hd & Ho & Hso & _).
  exists s, sc, d. repeat split; try done. congruence.
Qed.

(** X6: a document URL that [new URL] refuses makes [obtainManifest] throw
    the [TypeError] of the constructor for every manifest that is fetched:
    no manifest is returned and neither of the two errors of lines 39 and 40
    is reported. *)
Theorem unparsable_document_url
    (fetchJson : string -> Result JsObject) (manifestUrl documentUrl : string)
    (fetched : JsObject)
    (Hfetch : fetchJson manifestUrl = Ok fetched)
    (Hdoc : newURL documentUrl None = None) :
  obtainManifest fetchJson manifestUrl documentUrl = Throw (TypeError "invalid URL").
Proof.
  unfold obtainManifest. rewrite Hfetch. cbn [bind].
  destruct (resolveUrls fetched documentUrl) as [m|e] eqn:Hr; cbn [bind].
  - unfold checkUrls, URL_new. rewrite Hdoc.
    destruct (newURL (ToStringP (m !! "start_url")) None); [|done].
    by destruct (newURL (ToStringP (m !! "scope")) None).
  - revert Hr. unfold resolveUrls, URL_new.
    repeat match goal with
           | |- context [match newURL ?s ?b with _ => _ end] => destruct (newURL s b)
           | |- context [if ?b then _ else _] => destruct b
           end; cbn [bind];
    repeat match goal with
           | |- context [match newURL ?s ?b with _ => _ end] => destruct (newURL s b)
           | |- context [if ?b then _ else _] => destruct b
           end; cbn [bind]; congruence.
Qed.

(** X7: an explicit scope is resolved against the document URL, like the
    start URL; a scope that is missing or falsy ([null], the empty string)
    is [.] resolved against the resolved start URL, and a start URL that is
    missing or falsy is the document URL as it was received. *)
Theorem resolution_of_loaded_manifest
    (fetchJson : string -> Result JsObject) (manifestUrl documentUrl : string)
    (fetched m : JsObject)
    (Hfetch : fetchJson manifestUrl = Ok fetched)
    (Hm : obtainManifest fetchJson manifestUrl documentUrl = Ok m) :
  (truthy (fetched !! "scope") = true ->
   exists u, newURL (ToStringP (fetched !! "scope")) (Some documentUrl) = Some u
             /\ m !! "scope" = Some (JStr (href u)))
  /\ (truthy (fetched !! "scope") = false ->
      exists u, newURL "." (Some (ToStringP (m !! "start_url"))) = Some u
                /\ m !! "scope" = Some (JStr (href u)))
  /\ (truthy (fetched !! "start_url") = true ->
      exists u, newURL (ToStringP (fetched !! "start_url")) (Some documentUrl) = Some u
                /\ m !! "start_url" = Some (JStr (href u)))
  /\ (truthy (fetched !! "start_url") = false ->
      m !! "start_url" = Some (JStr documentUrl)).
Proof.
  apply obtainManifest_Ok in Hm as (fetched' & Hf & Hr & _).
  rewrite Hfetch in Hf. injection Hf as <-.
  apply resolveUrls_Ok in Hr as (a & b & -> & Ha & Hb).
  rewrite lookup_insert_eq, lookup_insert_ne, lookup_insert_eq by done. cbn [ToStringP ToString].
  repeat split; intros Ht; rewrite Ht in *.
  - destruct Hb as (u & Hu & ->). by exists u.
  - destruct Hb as (u & Hu & ->). by exists u.
  - destruct Ha as (u & Hu & ->). by exists u.
  - by subst a.
Qed.

Section Serialized.
Context {laws : UrlLaws api} {nonempty : UrlNonEmpty api}.

(** X8: with a document URL that is its own serialization, [obtainManifest]
    returns unchanged every manifest that it has returned: resolving and
    checking a resolved manifest again changes nothing, whatever the
    manifest held at first. *)
Theorem obtainManifest_idempotent
    (fetchJson : string -> Result JsObject) (manifestUrl documentUrl : string)
    (m : JsObject)
    (Hm : obtainManifest fetchJson manifestUrl documentUrl = Ok m)
    (Hserialized : forall doc, newURL documentUrl None = Some doc -> href doc = documentUrl) :
  forall manifestUrl', obtainManifest (fun _ => Ok m) manifestUrl' documentUrl = Ok m.
Proof.
  intros manifestUrl'.
  apply obtainManifest_Ok in Hm as (fetched & _ & Hr & Hc).
  pose proof Hc as Hc'.
  apply checkUrls_Ok in Hc' as (_ & _ & _ & doc & _ & _ & Hd & _).
  pose proof (Hserialized doc Hd) as Hhref.
  assert (Hvalid : is_Some (newURL documentUrl None)) by (by exists doc).
  apply resolveUrls_Ok in Hr as (a & b & Heq & Ha & Hb).
  assert (Hm1 : m !! "start_url" = Some (JStr a)).
  { rewrite Heq. by rewrite lookup_insert_ne, lookup_insert_eq. }
  assert (Hm2 : m !! "scope" = Some (JStr b)).
  { rewrite Heq. by rewrite lookup_insert_eq. }
  assert (Hfix1 : <["start_url" := JStr a]> m = m) by (by apply insert_id).
  assert (Hfix2 : <["scope" := JStr b]> m = m) by (by apply insert_id).
  assert (Hstart : a <> "" -> exists u, newURL a (Some documentUrl) = Some u /\ href u = a).
  { intros Hne. destruct (truthy (fetched !! "start_url")).
    - destruct Ha as (u & Hu & ->). exists u. split; [|done].
      by eapply href_absolute.
    - subst a. exists doc. split; [|done].
      rewrite <- Hhref at 1. by apply (href_absolute documentUrl None). }
  assert (Hscope : exists u, newURL b (Some documentUrl) = Some u /\ href u = b /\ b <> "").
  { assert (exists s base u, newURL s base = Some u /\ b = href u) as (s & base & u & Hu & ->).
    { destruct (truthy (fetched !! "scope")); destruct Hb as (u & Hu & ->); eauto. }
    exists u. split; [by eapply href_absolute|]. split; [done | apply href_nonempty]. }
  unfold obtainManifest. cbn [bind].
  assert (Hagain : resolveUrls m documentUrl = Ok m).
  { unfold resolveUrls. rewrite Hm1. cbn [truthy ToStringP ToString].
    assert (Hfirst :
      (if negb (String.eqb a "")
       then u0 <- URL_new a (Some documentUrl) ;; Ok (<["start_url" := JStr (href u0)]> m)
       else Ok (<["start_url" := JStr documentUrl]> m)) = Ok m).
    { destruct (String.eqb_spec a "") as [He|Hne]; cbn [negb].
      - destruct (truthy (fetched !! "start_url")).
        + destruct Ha as (u & _ & Hu). destruct (href_nonempty u). congruence.
        + subst a. by rewrite Hfix1.
      - destruct (Hstart Hne) as (u & Hu & Hhu).
        rewrite (URL_new_Some _ _ _ Hu). cbn [bind]. by rewrite Hhu, Hfix1. }
    rewrite Hfirst. cbn [bind]. rewrite Hm2. cbn [truthy ToStringP ToString].
    destruct Hscope as (u & Hu & Hhu & Hne).
    destruct (String.eqb_spec b "") as [|_]; [done|]. cbn [negb].
    rewrite (URL_new_Some _ _ _ Hu). cbn [bind]. by rewrite Hhu, Hfix2. }
  rewrite Hagain. cbn [bind]. exact Hc.
Qed.

End Serialized.

End FurtherProperties.

(** ** The loading of the form *)

Ltac run_loading :=
  unfold loadForm, populateProfiles, callNative,
    andThen, try_catch, sendNativeMessage, read, update, lift, ret;
  cbn beta iota.

Section LoadingProperties.
Context {api : UrlApi}.

(** X9: the loading of the form ends with an exception exactly when
    [obtainManifest] throws, and with that same exception: a failure of one
    of the two lists is always caught by the [try] block, whatever the native
    program replies, while a failure of the manifest is raised before it.
    In that case the error text and the error notification are left as they
    were and no message was sent to the native program. *)
Theorem manifest_failure_is_not_shown
    (fetchJson : string -> Result JsObject) (manifestUrl documentUrl : string)
    (peer : NativeRequest -> NativeReply) (ui : UI) (e : JsError) :
  let after := loadForm fetchJson manifestUrl documentUrl peer ui in
  (fst after = Throw e <-> obtainManifest fetchJson manifestUrl documentUrl = Throw e)
  /\ (fst after = Throw e -> snd after = ui).
Proof.
  run_loading.
  destruct (obtainManifest fetchJson manifestUrl documentUrl) as [m|e'].
  - cbn beta iota.
    destruct (peer {| cmd := "GetSiteList"; params := None |}) as [e1|response];
      [by split; [split|]; intros [=]|].
    destruct (checkResponse "SiteList" response) as [sites|e1];
      [|by split; [split|]; intros [=]].
    destruct (peer {| cmd := "GetProfileList"; params := None |}) as [e2|response'];
      [by split; [split|]; intros [=]|].
    destruct (checkResponse "ProfileList" response');
      by split; [split|]; intros [=].
  - cbn [fst snd]. split; [split; intros [= ->]; reflexivity | reflexivity].
Qed.

(** X10: with the manifest loaded, the site list is requested first. If
    that call fails, its error is shown and the profile list is never
    requested; if the call for the profile list fails, its error is shown
    after both requests; in both cases the loading ends without a result.
    When both calls succeed nothing is shown and the result holds the
    manifest and the data of the two replies. *)
Theorem list_failure_is_shown
    (fetchJson : string -> Result JsObject) (manifestUrl documentUrl : string)
    (peer : NativeRequest -> NativeReply) (ui : UI) (m : JsObject)
    (Hm : obtainManifest fetchJson manifestUrl documentUrl = Ok m) :
  let getSites := {| cmd := "GetSiteList"; params := None |} in
  let getProfiles := {| cmd := "GetProfileList"; params := None |} in
  let shown e log :=
    set_error_toast_shown true (set_error_text (message_of e) (set_sent log ui)) in
  loadForm fetchJson manifestUrl documentUrl peer ui =
    match obtainSiteList peer with
    | Throw e => (Ok None, shown e (sent ui ++ [getSites])%list)
    | Ok sites =>
        match obtainProfileList peer with
        | Throw e => (Ok None, shown e (sent ui ++ [getSites; getProfiles])%list)
        | Ok profiles =>
            (Ok (Some (m, sites, profiles)),
             set_sent (sent ui ++ [getSites; getProfiles])%list ui)
        end
    end.
Proof.
  run_loading. rewrite Hm. unfold obtainSiteList, obtainProfileList, awaitReply.
  cbn beta iota.
  destruct (peer {| cmd := "GetSiteList"; params := None |}) as [e|response]; [done|].
  destruct (checkResponse "SiteList" response) as [sites|e]; [|done].
  cbn [sent set_sent].
  destruct (peer {| cmd := "GetProfileList"; params := None |}) as [e|response'].
  - by rewrite <- app_assoc.
  - destruct (checkResponse "ProfileList" response'); by rewrite <- app_assoc.
Qed.

End LoadingProperties.

(** ** The options of the profile drop-down *)




(** ** Sessions of the popup *)

Lemma submit_onclick_effect manifestUrl documentUrl manifest peer ui :
  let ui' := snd (submit_onclick manifestUrl documentUrl manifest peer ui) in
  form ui' = form ui
  /\ profilesElement ui' = profilesElement ui
  /\ lastProfileSelection ui' = lastProfileSelection ui
  /\ new_profile_create ui' = new_profile_create ui
  /\ (ui' = ui
      \/ disabled (submit ui') = true
         /\ (sent ui' = sent ui
             \/ exists p, sent ui' = (sent ui ++ [{| cmd := "InstallSite"; params := p |}])%list)).
Proof.
  run_handler. destruct (checkValidity (form ui)); cbn [negb]; [|by repeat split; left].
  destruct (overrideOf _ (manifest !! "categories")) as [categories|e]; cbn beta iota;
    [|by repeat split; right; split; [|left]].
  destruct (overrideOf _ (manifest !! "keywords")) as [keywords|e]; cbn beta iota;
    [|by repeat split; right; split; [|left]].
  destruct (peer _) as [e|response]; cbn beta iota;
    [by repeat split; right; split; [|right; eexists]|].
  destruct (checkResponse "SiteInstalled" response); cbn beta iota;
    by repeat split; right; split; [|right; eexists].
Qed.

Lemma create_onclick_effect peer ui :
  let ui' := snd (new_profile_create_onclick peer ui) in
  form ui' = form ui
  /\ submit ui' = submit ui
  /\ lastProfileSelection ui' = lastProfileSelection ui
  /\ disabled (new_profile_create ui') = true
  /\ (exists p, sent ui' = (sent ui ++ [{| cmd := "CreateProfile"; params := p |}])%list)
  /\ (exists o, profilesElement ui' = select_add o true (profilesElement ui)).
Proof.
  run_handler. destruct (peer _) as [e|response]; cbn beta iota;
    [by repeat split; eexists|].
  destruct (checkResponse "ProfileCreated" response); cbn beta iota;
    by repeat split; eexists.
Qed.

Lemma user_selects_effect i ui :
  let ui' := snd (user_selects i ui) in
  form ui' = form ui
  /\ submit ui' = submit ui
  /\ new_profile_create ui' = new_profile_create ui
  /\ sent ui' = sent ui
  /\ options (profilesElement ui') = options (profilesElement ui)
  /\ (lastProfileSelection ui' = lastProfileSelection ui
      \/ lastProfileSelection ui' = select_value (profilesElement ui')
         /\ lastProfileSelection ui' <> "create-new-profile").
Proof.
  unfold user_selects. run_handler. cbn [profilesElement set_profilesElement snd].
  set (s := {| options := options (profilesElement ui); selectedIndex := Some i |}).
  destruct (String.eqb_spec (select_value s) "create-new-profile") as [He|Hne];
    cbn [negb]; repeat split; try done; [by left | by right].
Qed.

Lemma select_value_selectable (s : Select) : selectable (select_value s) s.
Proof.
  unfold selectable, select_value.
  destruct (selectedIndex s) as [i|]; [|by left].
  destruct (options s !! i) as [o|] eqn:Ho; [|by left].
  right. exists o. split; [|done]. by eapply list_elem_of_lookup_2.
Qed.

Lemma index_of_value_Some v l i :
  index_of_value v l = Some i -> exists o, l !! i = Some o /\ option_value o = v.
Proof.
  revert i. induction l as [|o l IH]; intros i; [done|]. simpl.
  destruct (String.eqb_spec (option_value o) v) as [He|_].
  - intros [= <-]. by exists o.
  - destruct (index_of_value v l) as [j|]; [|done]. intros [= <-]. by apply IH.
Qed.

Lemma index_of_value_None v l o :
  index_of_value v l = None -> o ∈ l -> option_value o <> v.
Proof.
  induction l as [|o' l IH]; [by intros _ ?%elem_of_nil|]. simpl.
  destruct (String.eqb_spec (option_value o') v) as [|Hne]; [done|].
  destruct (index_of_value v l); [done|].
  intros _ [->|Hin]%elem_of_cons; [done | by apply IH].
Qed.

(** Setting the value of the drop-down and reading it back. *)
Lemma select_value_set v s :
  selectable v s -> select_value (select_set_value v s) = v.
Proof.
  intros Hv. unfold select_value, select_set_value. cbn [selectedIndex options].
  destruct (index_of_value v (options s)) as [i|] eqn:Hi.
  - apply index_of_value_Some in Hi as (o & -> & Ho). done.
  - destruct Hv as [->|(o & Hin & Ho)]; [done|].
    by destruct (index_of_value_None _ _ _ Hi Hin).
Qed.

Lemma interact_settled manifestUrl documentUrl manifest i ui :
  settled ui -> settled (interact manifestUrl documentUrl manifest i ui).
Proof.
  intros [Hsel Hne]. destruct i as [f|[i| |reply|reply]]; cbn [interact step].
  - done.
  - destruct (user_selects_effect i ui) as (_ & _ & _ & _ & Hopts & [Hl|[Hl Hl']]).
    + split; rewrite Hl; [|done]. unfold selectable. by rewrite Hopts.
    + split; [|done]. rewrite Hl. apply select_value_selectable.
  - done.
  - destruct (disabled (new_profile_create ui)); [done|].
    destruct (create_onclick_effect (fun _ => reply) ui)
      as (_ & _ & Hl & _ & _ & o & Hp).
    split; rewrite Hl; [|done]. rewrite Hp.
    destruct Hsel as [He|(o' & Hin & Ho')]; [by left|].
    right. exists o'. split; [|done]. cbn [select_add options].
    apply elem_of_app. by left.
  - destruct (disabled (submit ui)); [done|].
    destruct (submit_onclick_effect manifestUrl documentUrl manifest (fun _ => reply) ui)
      as (_ & Hp & Hl & _).
    split; rewrite Hl; [|done]. by rewrite Hp.
Qed.

Lemma session_settled manifestUrl documentUrl manifest interactions ui :
  settled ui -> settled (session manifestUrl documentUrl manifest interactions ui).
Proof.
  revert ui. induction interactions as [|i l IH]; intros ui H; [done|].
  cbn [session foldl]. apply IH. by apply interact_settled.
Qed.

(** X12: if [lastProfileSelection] starts as the value of an option (or as
    the empty value) other than ["create-new-profile"], this stays so after
    every sequence of edits, selections, cancellations, creations and
    submissions, and cancelling the dialog then brings the drop-down to
    [lastProfileSelection]: never to the option that creates a profile. *)
Theorem cancel_restores_a_real_selection
    (manifestUrl documentUrl : string) (manifest : JsObject)
    (interactions : list Interaction) (ui : UI)
    (Hselectable : selectable (lastProfileSelection ui) (profilesElement ui))
    (Hreal : lastProfileSelection ui <> "create-new-profile") :
  let now := session manifestUrl documentUrl manifest interactions ui in
  let cancelled := step manifestUrl documentUrl manifest ClickCancel now in
  selectable (lastProfileSelection now) (profilesElement now)
  /\ lastProfileSelection now <> "create-new-profile"
  /\ select_value (profilesElement cancelled) = lastProfileSelection now
  /\ select_value (profilesElement cancelled) <> "create-new-profile".
Proof.
  intros now cancelled.
  destruct (session_settled manifestUrl documentUrl manifest interactions ui)
    as [Hsel Hne]; [done|]. fold now in Hsel, Hne.
  assert (Hc : select_value (profilesElement cancelled) = lastProfileSelection now).
  { unfold cancelled. cbn [step]. unfold new_profile_cancel_onclick, update.
    cbn [snd profilesElement set_profilesElement]. by apply select_value_set. }
  repeat split; try done. by rewrite Hc.
Qed.

(** *** No message is sent twice *)

Lemma count_cmd_snoc c log request :
  count_cmd c (log ++ [request])
  = count_cmd c log + (if decide (cmd request = c) then 1 else 0).
Proof.
  unfold count_cmd. rewrite filter_app, length_app. f_equal.
  rewrite filter_cons, filter_nil. by destruct (decide (cmd request = c)).
Qed.

Lemma interact_once manifestUrl documentUrl manifest i ui :
  once "InstallSite" (submit ui) ui /\ once "CreateProfile" (new_profile_create ui) ui ->
  let ui' := interact manifestUrl documentUrl manifest i ui in
  once "InstallSite" (submit ui') ui' /\ once "CreateProfile" (new_profile_create ui') ui'.
Proof.
  intros [HI HC]. pose proof HI as [Hi Hie]. pose proof HC as [Hc Hce].
  destruct i as [f|[i| |reply|reply]]; cbn [interact step]; cbn zeta.
  - by split.
  - destruct (user_selects_effect i ui) as (_ & Hs & Hn & Hsent & _).
    unfold once. by rewrite Hs, Hn, Hsent.
  - by split.
  - destruct (disabled (new_profile_create ui)) eqn:Hd; [by split|].
    destruct (create_onclick_effect (fun _ => reply) ui)
      as (_ & Hs & _ & Hd' & (p & Hsent) & _).
    unfold once. rewrite Hs, Hsent, Hd', !count_cmd_snoc. cbn [cmd].
    specialize (Hce eq_refl). rewrite Hce.
    repeat split; try done; try (intros H; specialize (Hie H)); simpl; lia.
  - destruct (disabled (submit ui)) eqn:Hd; [by split|].
    destruct (submit_onclick_effect manifestUrl documentUrl manifest (fun _ => reply) ui)
      as (_ & _ & _ & Hn & [->|[Hd' [Hsent|[p Hsent]]]]); [by split| |].
    + unfold once. rewrite Hn, Hsent, Hd'. repeat split; try done.
    + unfold once. rewrite Hn, Hsent, Hd', !count_cmd_snoc. cbn [cmd].
      specialize (Hie eq_refl). rewrite Hie.
      repeat split; try done; try (intros H; specialize (Hce H)); simpl; lia.
Qed.

Lemma session_once manifestUrl documentUrl manifest interactions ui :
  once "InstallSite" (submit ui) ui /\ once "CreateProfile" (new_profile_create ui) ui ->
  let ui' := session manifestUrl documentUrl manifest interactions ui in
  once "InstallSite" (submit ui') ui' /\ once "CreateProfile" (new_profile_create ui') ui'.
Proof.
  revert ui. induction interactions as [|i l IH]; intros ui H; [done|].
  cbn [session foldl]. apply IH. by apply interact_once.
Qed.

(** X13: in a popup that has sent nothing yet, whatever the user edits,
    selects and clicks and whatever the native program replies, the
    [InstallSite] message is sent once at most and the [CreateProfile]
    message is sent once at most: each handler disables its button before it
    sends and nothing enables it again. *)
Theorem no_message_is_sent_twice
    (manifestUrl documentUrl : string) (manifest : JsObject)
    (interactions : list Interaction) (ui : UI)
    (Hfresh : sent ui = []) :
  let now := session manifestUrl documentUrl manifest interactions ui in
  count_cmd "InstallSite" (sent now) <= 1
  /\ count_cmd "CreateProfile" (sent now) <= 1
  /\ (count_cmd "InstallSite" (sent now) = 1 -> disabled (submit now) = true)
  /\ (count_cmd "CreateProfile" (sent now) = 1 -> disabled (new_profile_create now) = true).
Proof.
  intros now.
  destruct (session_once manifestUrl documentUrl manifest interactions ui)
    as [[Hi Hie] [Hc Hce]].
  { unfold once. rewrite Hfresh. cbn. repeat split; lia. }
  fold now in Hi, Hie, Hc, Hce.
  repeat split; try done.
  - intros H. destruct (disabled (submit now)); [done|]. specialize (Hie eq_refl). lia.
  - intros H. destruct (disabled (new_profile_create now)); [done|].
    specialize (Hce eq_refl). lia.
Qed.

(** ** The creation of a profile *)


(** X15: when the [CreateProfile] call succeeds, one message was sent, with
    the name and the description typed in the dialog ([null] for an empty
    input); the option appended last has the name as its text and the data
    of the reply as its value, it is the selected one, the error
    notification and the dialog are hidden and the error text is left as it
    was. *)
Theorem successful_creation
    (response : JsObject) (ui : UI) (id : JsValue)
    (Hok : checkResponse "ProfileCreated" response = Ok (Some id)) :
  let after := snd (new_profile_create_onclick (fun _ => Replied response) ui) in
  let name := orNull (new_profile_name (form ui)) in
  let description := orNull (new_profile_description (form ui)) in
  sent after
  = (sent ui ++ [{| cmd := "CreateProfile";
                    params := Some (<["name" := nullable name]>
                                   (<["description" := nullable description]> ∅)) |}])%list
  /\ options (profilesElement after)
     = (options (profilesElement ui)
        ++ [{| text := ToString (nullable name); value_attr := Some (ToString id) |}])%list
  /\ selectedIndex (profilesElement after) = Some (length (options (profilesElement ui)))
  /\ select_value (profilesElement after) = ToString id
  /\ error_toast_shown after = false
  /\ error_text after = error_text ui
  /\ new_profile_modal_shown after = false.
Proof.
  run_handler. rewrite Hok. cbn beta iota.
  repeat split.
  cbn [snd profilesElement set_profilesElement set_new_profile_modal_shown].
  unfold select_value, select_add. cbn [selectedIndex options].
  by rewrite lookup_app_r, Nat.sub_diag.
Qed.

(** ** The submission *)


(** *** Lists of plain tags *)

Lemma mentions_append c a b : mentions c (a +:+ b) = mentions c a || mentions c b.
Proof.
  induction a as [|x a IH]; [done|].
  change (String x a +:+ b) with (String x (a +:+ b)). cbn [mentions].
  by rewrite IH, orb_assoc.
Qed.

Lemma comma_splits (a b ra rb : string) :
  mentions "," a = false -> mentions "," b = false ->
  a +:+ "," +:+ ra = b +:+ "," +:+ rb -> a = b /\ ra = rb.
Proof.
  revert b. induction a as [|x a IH]; intros [|y b] Ha Hb H.
  - by injection H.
  - injection H as <- _. done.
  - injection H as -> _. done.
  - change (String x (a +:+ "," +:+ ra) = String y (b +:+ "," +:+ rb)) in H.
    injection H as -> H. cbn [mentions] in Ha, Hb.
    apply orb_false_elim in Ha as [_ Ha]. apply orb_false_elim in Hb as [_ Hb].
    destruct (IH b Ha Hb H) as [-> ->]. done.
Qed.

Lemma mentions_concat (tag : string) (tags : list string) :
  mentions "," (tag +:+ "," +:+ String.concat "," tags) = true.
Proof. rewrite mentions_append. cbn. by rewrite orb_true_r. Qed.

Lemma arrayToString_injective (l1 l2 : list string) :
  Forall plain_tag l1 -> Forall plain_tag l2 ->
  arrayToString l1 = arrayToString l2 -> l1 = l2.
Proof.
  unfold arrayToString. intros H1. revert l2.
  induction H1 as [|a l1 [Hane Ha] Hl1 IH]; intros l2 H2 H.
  - destruct H2 as [|b l2 [Hbne Hb] Hl2]; [done|].
    destruct l2; cbn in H; [by subst|].
    by destruct b.
  - destruct H2 as [|b l2 [Hbne Hb] Hl2].
    + destruct l1; cbn in H; [by subst|]. by destruct a.
    + destruct l1 as [|a' l1], l2 as [|b' l2].
      * cbn in H. by subst.
      * change (a = b +:+ "," +:+ String.concat "," (b' :: l2)) in H.
        rewrite H, mentions_concat in Ha. done.
      * change (a +:+ "," +:+ String.concat "," (a' :: l1) = b) in H.
        rewrite <- H, mentions_concat in Hb. done.
      * change (a +:+ "," +:+ String.concat "," (a' :: l1)
                = b +:+ "," +:+ String.concat "," (b' :: l2)) in H.
        apply comma_splits in H as [-> H]; [|done..].
        f_equal. by apply IH.
Qed.

(** X17: when the selected tags and the items of the manifest list are all
    non-empty strings without a comma, the comparison through [toString] is
    the comparison of the lists: the override is empty exactly when the
    selection is the list of the manifest, item by item and in the same
    order, and it is the whole selection otherwise. *)
Theorem override_of_plain_tags
    (user listed : list string)
    (Huser : Forall plain_tag user)
    (Hlisted : Forall plain_tag listed) :
  overrideOf user (Some (JArr (JStr <$> listed)))
  = Ok (if decide (user = listed) then [] else user).
Proof.
  unfold overrideOf, callToString. cbn [bind]. rewrite concat_JStr.
  destruct (decide (user = listed)) as [->|Hne].
  - by rewrite String.eqb_refl.
  - destruct (String.eqb_spec (arrayToString user) (arrayToString listed)) as [He|_];
      [|done].
    by apply arrayToString_injective in He.
Qed.

(** ** The further properties at concrete inputs *)

Lemma mini_url_href_nonempty (u : MiniURL.Url) :
  string_of_list_ascii (MiniURL.href_chars u) <> "".
Proof.
  unfold MiniURL.href_chars, MiniURL.pathname_chars.
  by destruct (MiniURL.origin_chars u).
Qed.

#[export] Instance mini_url_nonempty : UrlNonEmpty mini_url := {|
  href_nonempty := mini_url_href_nonempty
|}.

Lemma name_collision_witness :
  let site : JsObject :=
    <["config" := JObj (<["name" := JStr "Foo"]> ∅)]>
      (<["manifest" := JObj (<["name" := JStr "Bar"]> ∅)]> ∅) in
  let sites : JsObject := <["01" := JObj site]> ∅ in
  (forall id s, sites !! id = Some s -> exists name, siteName s = Ok name)
  /\ nameValidation (Some (JObj sites)) "" "Foo"
     = Ok "Site name must not be reused from existing web apps"
  /\ nameValidation (Some (JObj sites)) "Bar" "Foo" = Ok "".
Proof.
  intros site sites.
  assert (Hsites : forall id s, sites !! id = Some s -> exists name, siteName s = Ok name).
  { intros id s [_ <-]%lookup_singleton_Some. by eexists. }
  split; [exact Hsites|]. split.
  - apply (proj1 (name_collision sites "" "Foo" Hsites)).
    exists "01", (JObj site). split; evaluate.
  - apply (proj2 (name_collision sites "Bar" "Foo" Hsites)).
    intros (id & s & [_ <-]%lookup_singleton_Some & Hs). by vm_compute in Hs.
Defined.

Lemma malformed_site_breaks_name_validation_witness :
  let site : JsObject := <["manifest" := JObj (<["name" := JStr "Bar"]> ∅)]> ∅ in
  let sites : JsObject := <["01" := JObj site]> ∅ in
  sites !! "01" = Some (JObj site)
  /\ site !! "config" = None
  /\ exists msg, nameValidation (Some (JObj sites)) "Baz" "Foo" = Throw (TypeError msg).
Proof.
  intros site sites. evaluated H1. evaluated H2.
  exact (proj1 (malformed_site_breaks_name_validation sites site "01" "Baz" "Foo"
                  H1 (or_introl H2))).
Defined.

Lemma default_name_of_loaded_manifest_witness :
  let manifestUrl := "https://x.test/manifest.json" in
  let documentUrl := "https://x.test/app/page" in
  let fetched : JsObject := <["start_url" := JStr "/app"]> (<["scope" := JStr "/app"]> ∅) in
  let m : JsObject :=
    <["scope" := JStr "https://x.test/app"]>
      (<["start_url" := JStr "https://x.test/app"]> fetched) in
  obtainManifest (api := mini_url) (serving manifestUrl fetched) manifestUrl documentUrl = Ok m
  /\ exists scope,
       newURL (ToStringP (m !! "scope")) None = Some scope
       /\ namePlaceholder m = Ok (host scope).
Proof.
  intros manifestUrl documentUrl fetched m. evaluated H1.
  destruct (default_name_of_loaded_manifest (api := mini_url)
              (serving manifestUrl fetched) manifestUrl documentUrl m H1)
    as (scope & Hscope & _ & Hplaceholder).
  exists scope. split; [exact Hscope|]. apply Hplaceholder; evaluate.
Defined.

Lemma loaded_urls_are_valid_overrides_witness :
  let manifestUrl := "https://x.test/manifest.json" in
  let documentUrl := "https://x.test/app/page" in
  let fetched : JsObject := <["start_url" := JStr "/app/home"]> (<["scope" := JStr "/app"]> ∅) in
  let m : JsObject :=
    <["scope" := JStr "https://x.test/app"]>
      (<["start_url" := JStr "https://x.test/app/home"]> fetched) in
  obtainManifest (api := mini_url) (serving manifestUrl fetched) manifestUrl documentUrl = Ok m
  /\ startUrlValidation m "https://x.test/app/home" false = Ok ""
  /\ startUrlValidation m "https://x.test/app" false = Ok "".
Proof.
  intros manifestUrl documentUrl fetched m. evaluated H1.
  destruct (loaded_urls_are_valid_overrides (api := mini_url)
              (serving manifestUrl fetched) manifestUrl documentUrl m H1)
    as (Hstart & Hscope & _).
  split; [exact Hstart | exact Hscope].
Defined.

Lemma loaded_manifest_has_one_origin_witness :
  let manifestUrl := "https://x.test/manifest.json" in
  let documentUrl := "https://x.test/app/page" in
  let m : JsObject :=
    <["scope" := JStr "https://x.test/app/"]> (<["start_url" := JStr documentUrl]> ∅) in
  obtainManifest (api := mini_url) (serving manifestUrl ∅) manifestUrl documentUrl = Ok m
  /\ exists startUrl scope doc : URL (UrlApi := mini_url),
       newURL (ToStringP (m !! "start_url")) None = Some startUrl
       /\ newURL (ToStringP (m !! "scope")) None = Some scope
       /\ newURL documentUrl None = Some doc
       /\ origin startUrl = origin doc
       /\ origin scope = origin doc.
Proof.
  intros manifestUrl documentUrl m. evaluated H1.
  exact (loaded_manifest_has_one_origin (api := mini_url)
           (serving manifestUrl ∅) manifestUrl documentUrl m H1).
Defined.

Lemma unparsable_document_url_witness :
  let manifestUrl := "https://x.test/manifest.json" in
  let fetched : JsObject := <["start_url" := JStr "https://x.test/app"]> ∅ in
  serving manifestUrl fetched manifestUrl = Ok fetched
  /\ newURL (UrlApi := mini_url) "x.test/app/page" None = None
  /\ obtainManifest (api := mini_url) (serving manifestUrl fetched) manifestUrl
       "x.test/app/page"
     = Throw (TypeError "invalid URL").
Proof.
  intros manifestUrl fetched. evaluated H1. evaluated H2.
  exact (unparsable_document_url (api := mini_url) (serving manifestUrl fetched)
           manifestUrl "x.test/app/page" fetched H1 H2).
Defined.

Lemma resolution_of_loaded_manifest_witness :
  let manifestUrl := "https://x.test/static/manifest.json" in
  let documentUrl := "https://x.test/app/page" in
  let fetched : JsObject := <["scope" := JStr "."]> (<["start_url" := JNull]> ∅) in
  let m : JsObject :=
    <["scope" := JStr "https://x.test/app/"]> (<["start_url" := JStr documentUrl]> fetched) in
  serving manifestUrl fetched manifestUrl = Ok fetched
  /\ obtainManifest (api := mini_url) (serving manifestUrl fetched) manifestUrl documentUrl
     = Ok m
  /\ truthy (fetched !! "scope") = true
  /\ truthy (fetched !! "start_url") = false
  /\ (exists u, newURL (ToStringP (fetched !! "scope")) (Some documentUrl) = Some u
                /\ m !! "scope" = Some (JStr (href u)))
  /\ m !! "start_url" = Some (JStr documentUrl).
Proof.
  intros manifestUrl documentUrl fetched m.
  evaluated H1. evaluated H2. evaluated H3. evaluated H4.
  destruct (resolution_of_loaded_manifest (api := mini_url)
              (serving manifestUrl fetched) manifestUrl documentUrl fetched m H1 H2)
    as (Hscope & _ & _ & Hstart).
  split; [exact (Hscope H3) | exact (Hstart H4)].
Defined.

Lemma obtainManifest_idempotent_witness :
  let manifestUrl := "https://x.test/manifest.json" in
  let documentUrl := "https://x.test/app/page" in
  let fetched : JsObject :=
    <["start_url" := JStr "../app/./home"]> (<["scope" := JStr "/app/"]> ∅) in
  let m : JsObject :=
    <["scope" := JStr "https://x.test/app/"]>
      (<["start_url" := JStr "https://x.test/app/home"]> fetched) in
  obtainManifest (api := mini_url) (serving manifestUrl fetched) manifestUrl documentUrl = Ok m
  /\ (forall doc, newURL documentUrl None = Some doc -> href doc = documentUrl)
  /\ obtainManifest (api := mini_url) (fun _ => Ok m) manifestUrl documentUrl = Ok m.
Proof.
  intros manifestUrl documentUrl fetched m. evaluated H1.
  assert (H2 : forall doc : URL (UrlApi := mini_url),
            newURL documentUrl None = Some doc -> href doc = documentUrl).
  { intros doc Hdoc. vm_compute in Hdoc. injection Hdoc as <-. reflexivity. }
  split; [exact H2|].
  exact (obtainManifest_idempotent (api := mini_url) (serving manifestUrl fetched)
           manifestUrl documentUrl m H1 H2 manifestUrl).
Defined.

Lemma manifest_failure_is_not_shown_witness :
  let manifestUrl := "https://x.test/manifest.json" in
  let documentUrl := "https://x.test/app/page" in
  let fetched : JsObject := <["start_url" := JStr "https://y.test/"]> ∅ in
  let ui := initial_ui [] "" [] [] in
  let after :=
    loadForm (api := mini_url) (serving manifestUrl fetched) manifestUrl documentUrl
      (fun _ => reply_of "SiteList" (JObj ∅)) ui in
  obtainManifest (api := mini_url) (serving manifestUrl fetched) manifestUrl documentUrl
  = Throw (Error "Start and document URL are not in the same origin")
  /\ fst after = Throw (Error "Start and document URL are not in the same origin")
  /\ snd after = ui.
Proof.
  intros manifestUrl documentUrl fetched ui after. evaluated H1.
  destruct (manifest_failure_is_not_shown (api := mini_url)
              (serving manifestUrl fetched) manifestUrl documentUrl
              (fun _ => reply_of "SiteList" (JObj ∅)) ui
              (Error "Start and document URL are not in the same origin"))
    as (Hiff & Hsnd).
  split; [exact (proj2 Hiff H1) | exact (Hsnd (proj2 Hiff H1))].
Defined.

Lemma list_failure_is_shown_witness :
  let manifestUrl := "https://x.test/manifest.json" in
  let documentUrl := "https://x.test/app/page" in
  let m : JsObject :=
    <["scope" := JStr "https://x.test/app/"]> (<["start_url" := JStr documentUrl]> ∅) in
  let ui := initial_ui [] "" [] [] in
  let peer := fun _ : NativeRequest => reply_of "Error" (JStr "no connector") in
  obtainManifest (api := mini_url) (serving manifestUrl ∅) manifestUrl documentUrl = Ok m
  /\ obtainSiteList peer = Throw (Error "no connector")
  /\ loadForm (api := mini_url) (serving manifestUrl ∅) manifestUrl documentUrl peer ui
     = (Ok None,
        set_error_toast_shown true
          (set_error_text "no connector"
             (set_sent [{| cmd := "GetSiteList"; params := None |}] ui))).
Proof.
  intros manifestUrl documentUrl m ui peer. evaluated H1. evaluated H2.
  pose proof (list_failure_is_shown (api := mini_url)
                (serving manifestUrl ∅) manifestUrl documentUrl peer ui m H1) as H.
  cbn zeta in H. rewrite H2 in H. exact H.
Defined.


Lemma cancel_restores_a_real_selection_witness :
  let ui := initial_ui [{| text := "Default"; value_attr := Some "P1" |};
                        {| text := "Work"; value_attr := Some "P2" |}] "" [] [] in
  let interactions := [Does (UserSelects 1); Does (UserSelects 2)] in
  let now := session "" "" ∅ interactions ui in
  selectable (lastProfileSelection ui) (profilesElement ui)
  /\ lastProfileSelection ui <> "create-new-profile"
  /\ select_value (profilesElement now) = "create-new-profile"
  /\ select_value (profilesElement (step "" "" ∅ ClickCancel now))
     = lastProfileSelection now.
Proof.
  intros ui interactions now.
  assert (H1 : selectable (lastProfileSelection ui) (profilesElement ui)).
  { right. exists {| text := "Default"; value_attr := Some "P1" |}.
    split; [by left | reflexivity]. }
  split; [exact H1|]. evaluated H2. evaluated H3.
  exact (proj1 (proj2 (proj2
           (cancel_restores_a_real_selection "" "" ∅ interactions ui H1 H2)))).
Defined.

Lemma no_message_is_sent_twice_witness :
  let ui := initial_ui [{| text := "Default"; value_attr := Some "P1" |}] "Work" [] [] in
  let manifest : JsObject := <["categories" := JArr []]> (<["keywords" := JArr []]> ∅) in
  let interactions :=
    [Does (ClickSubmit (reply_of "Error" (JStr "boom")));
     Does (ClickSubmit (reply_of "SiteInstalled" JNull));
     Does (ClickCreate (reply_of "ProfileCreated" (JStr "P2")));
     Does (ClickCreate (reply_of "ProfileCreated" (JStr "P3")))] in
  let now := session "https://x.test/manifest.json" "https://x.test/" manifest
               interactions ui in
  sent ui = []
  /\ count_cmd "InstallSite" (sent now) <= 1
  /\ count_cmd "CreateProfile" (sent now) <= 1.
Proof.
  intros ui manifest interactions now. evaluated H1.
  destruct (no_message_is_sent_twice "https://x.test/manifest.json" "https://x.test/"
              manifest interactions ui H1) as (Hi & Hc & _).
  split; [exact Hi | exact Hc].
Defined.


Lemma successful_creation_witness :
  let ui := initial_ui [{| text := "Default"; value_attr := Some "P1" |}] "Work" [] [] in
  let response : JsObject := <["type" := JStr "ProfileCreated"]> (<["data" := JStr "P2"]> ∅) in
  let after := snd (new_profile_create_onclick (fun _ => Replied response) ui) in
  checkResponse "ProfileCreated" response = Ok (Some (JStr "P2"))
  /\ select_value (profilesElement after) = "P2"
  /\ error_toast_shown after = false.
Proof.
  intros ui response after. evaluated H1.
  destruct (successful_creation response ui (JStr "P2") H1)
    as (_ & _ & _ & Hvalue & Htoast & _).
  split; [exact Hvalue | exact Htoast].
Defined.


Lemma override_of_plain_tags_witness :
  Forall plain_tag ["b"; "a"]
  /\ Forall plain_tag ["a"; "b"]
  /\ overrideOf ["b"; "a"] (Some (JArr (JStr <$> ["a"; "b"]))) = Ok ["b"; "a"].
Proof.
  assert (H1 : Forall plain_tag ["b"; "a"]) by (repeat constructor; done).
  assert (H2 : Forall plain_tag ["a"; "b"]) by (repeat constructor; done).
  split; [exact H1|]. split; [exact H2|].
  exact (override_of_plain_tags ["b"; "a"] ["a"; "b"] H1 H2).
Defined.
